(** * alti-cli: the remote state poller and the precondition checks

    A shallow embedding of
    - package [cloud], [ImageStateChecker] ([Digest], [Run], [checkState]),
      in the two revisions found in the sources: the one that guards on
      [img.Error] and queries in its loop, and the one that queries once
      before its loop;
    - package [service], [Check] and [CheckPID];
    - package [errors], the error kinds and constants.

    Time is counted in nanoseconds as [time.Duration] does.  A goroutine is
    modelled by the trace of what it does and the instant at which it
    offers a value on its channel; a [select] is decided by comparing the
    instants at which its cases become ready.  [time.Sleep(time.Second)]
    takes one second; what the scheduler adds to it can be counted into the
    latency of the call that follows. *)

From Stdlib Require Import ZArith NArith List String Bool Lia.
Import ListNotations.

Open Scope string_scope.
Open Scope list_scope.
Open Scope Z_scope.

(* ================================================================== *)
(** ** Package errors *)

Module errors.

(** The error kinds are distinct Go types over [string]; a value of the
    [error] interface is one of them, or an error of another package
    ([Foreign], e.g. a transport error of the GraphQL client). *)
Inductive error : Type :=
| AppError (msg : string)
| ConfigError (msg : string)
| ServerError (msg : string)
| ProjectError (msg : string)
| FileError (msg : string)
| Foreign (msg : string).

Definition Error (e : error) : string :=
  match e with
  | AppError m | ConfigError m | ServerError m
  | ProjectError m | FileError m | Foreign m => m
  end.

Definition ErrNoConfig : error := AppError "app: no config".
Definition ErrNotLogin : error := AppError "app: not login".
Definition ErrProfileNotFound : error := ConfigError "config: profile not found".
Definition ErrProfileNotRemovable : error :=
  ConfigError "config: default profile not removable".
Definition ErrClientInvisible : error := ConfigError "client: invisible".
Definition ErrOffline : error := ServerError "server: offline".
Definition ErrProjCreate : error := ProjectError "project: create".
Definition ErrProjRemove : error := ProjectError "project: remove".
Definition ErrProjNotFound : error := ProjectError "project: not found".
Definition ErrFileNotImage : error := FileError "file: not image".
Definition ErrFilesize : error := FileError "file: unknown filesize".
Definition ErrFileImageDim : error := FileError "file: unknown image dimension".
Definition ErrFileChecksum : error := FileError "file: unknown checksum".

(** [err == err'] on two errors: the same kind and the same text. *)
Definition eqb (e e' : error) : bool :=
  match e, e' with
  | AppError m, AppError m' => (m =? m')%string
  | ConfigError m, ConfigError m' => (m =? m')%string
  | ServerError m, ServerError m' => (m =? m')%string
  | ProjectError m, ProjectError m' => (m =? m')%string
  | FileError m, FileError m' => (m =? m')%string
  | Foreign m, Foreign m' => (m =? m')%string
  | _, _ => false
  end.

End errors.

(* ================================================================== *)
(** ** Data shared by the two revisions of package cloud *)

(** Modelled from the spec: package [db] is not among the sources.  A
    tracked item carries the project id, the item id, the current state and
    an error, which is the empty string when there is none; these are the
    four fields [checkState] reads and writes. *)
Record Image : Type := mkImage {
  PID : string;
  IID : string;
  State : string;
  Error : string
}.

Definition set_State (i : Image) (s : string) : Image :=
  {| PID := PID i; IID := IID i; State := s; Error := Error i |}.

Definition set_Error (i : Image) (e : string) : Image :=
  {| PID := PID i; IID := IID i; State := State i; Error := e |}.

Definition Duration : Type := Z.
Definition Second : Duration := 1000000000.

(** What one call of [gql.ProjectImage] comes back with: [err != nil]
    (with the text of [err.Error()]), or the queried image, of which the
    poller reads [State] and the list [Error]. *)
Inductive Reply : Type :=
| Failed (msg : string)
| Answer (state : string) (errs : list string).

(** A call also takes time. *)
Record Call : Type := mkCall { latency : N; reply : Reply }.

(** The remote service as seen from one [checkState]: the answer to the
    [k]-th query (counted from 0) for project [pid] and image [iid]. *)
Definition Remote : Type := string -> string -> nat -> Call.

(** What the polling goroutine does, with the instant at which it starts
    doing it. *)
Inductive Event : Type :=
| Query (at_ : Z) (pid iid : string) (k : nat)
| Sleep (at_ : Z).

Definition isQuery (e : Event) : bool :=
  match e with Query _ _ _ _ => true | Sleep _ => false end.

(** The polling goroutine run for a bounded number of loop iterations: its
    trace, and the instant and value of its [imgCh <- i] if it got there. *)
Record Poll : Type := mkPoll {
  trace : list Event;
  offer : option (Z * Image)
}.

(** What [checkState] hands back: the image, the instant of the return,
    and the trace of the goroutine it started (empty if it started none). *)
Record Checked : Type := mkChecked {
  ret : Image;
  at_return : Z;
  events : list Event
}.

(** [strings.Join] *)
Definition Join (l : list string) (sep : string) : string := String.concat sep l.

(** The instant at which a timer of duration [d] started at [now] fires:
    a duration that is not positive fires at once. *)
Definition fires (now : Z) (d : Duration) : Z := now + Z.max 0 d.

(** Loop iterations after which the race against the timer is decided:
    every iteration that does not end the loop sleeps one second. *)
Definition rounds (d : Duration) : nat := S (Z.to_nat (Z.max 0 d / Second)).

(** [select { case <-timer: ...; case ret = <-imgCh: }]: the case that is
    ready first is taken; when both become ready at the same instant the
    runtime picks one, [tie] says which ([true]: the channel). *)
Definition race (tie : bool) (deadline : Z) (onTimeout : Image)
    (o : option (Z * Image)) : Z * Image :=
  match o with
  | None => (deadline, onTimeout)
  | Some (t, i) =>
      if t <? deadline then (t, i)
      else if deadline <? t then (deadline, onTimeout)
      else if tie then (t, i) else (deadline, onTimeout)
  end.

(** *** Digest and Run

    [Digest] and [Run] have the same text in both revisions; they are
    written once here, over the revision's [checkState]. *)

(** How a [select] over a send on [Result] and a receive on [Done] ends. *)
Inductive Chosen : Type :=
| Sends (t : Z)
| Returns (t : Z)
| Blocks.

(** [ts]: the instant at which a receiver takes the value, [td]: the
    instant at which [Done] is seen closed, [None] when that never happens.
    The earlier one is taken; [pick] decides when both are ready at the
    same instant ([true]: the send). *)
Definition select2 (pick : bool) (ts td : option Z) : Chosen :=
  match ts, td with
  | None, None => Blocks
  | Some t, None => Sends t
  | None, Some t => Returns t
  | Some t1, Some t2 =>
      if t1 <? t2 then Sends t1
      else if t2 <? t1 then Returns t2
      else if pick then Sends t1 else Returns t2
  end.

(** How one [Digest] ends: [Images] was closed and drained, or [Done] was
    taken in the [select], or the [select] never gets ready. *)
Inductive Exit : Type :=
| Drained (t : Z)
| Cancelled (t : Z)
| Stuck.

Record Digested : Type := mkDigested {
  sent : list (Z * Image);
  did : list Event;
  exit : Exit
}.

(** The channels of one worker, as the worker meets them. *)
Record Channels : Type := mkChannels {
  (** [isc.Done]: the instant at which it is closed, if ever *)
  Done : option Z;
  (** [isc.Result]: how long the [j]-th value this worker offers waits
      for a receiver, [None] if none ever takes it *)
  Result : nat -> option N;
  (** the runtime's choice in the [j]-th [select] of [Digest] and in the
      [select] of the [j]-th [checkState], when both cases are ready *)
  pick : nat -> bool;
  tie : nat -> bool
}.

(** The goroutines [Run] starts: [go func() { isc.Digest(); wg.Done() }()]
    and [go func() { wg.Wait(); close(isc.Result) }()]. *)
Inductive Goroutine : Type :=
| Digester
| Closer.

Definition isDigester (g : Goroutine) : bool :=
  match g with Digester => true | Closer => false end.

(** What [Run] leaves behind: the wait group's counter after [wg.Add(n)],
    the goroutines in the order of their [go] statements, and its result. *)
Record Started : Type := mkStarted {
  wg : Z;
  spawned : list Goroutine;
  returned : Z
}.

Module shared.

Section Digest.

Variable checkState : bool -> Z -> Image -> Checked.
Variable ch : Channels.

(** [for img := range isc.Images]: [imgs] are the items this worker
    receives from [isc.Images], in order, the channel being closed after
    them; [j] items were received before.  In the [select] the operand
    [isc.checkState(img)] of the send is evaluated first, to its end, and
    only then are the two cases looked at. *)
Fixpoint Digest (j : nat) (now : Z) (imgs : list Image) : Digested :=
  match imgs with
  | [] => mkDigested [] [] (Drained now)
  | img :: rest =>
      let c := checkState (tie ch j) now img in
      let now := at_return c in
      let ts := option_map (fun d => now + Z.of_N d) (Result ch j) in
      let td := option_map (Z.max now) (Done ch) in
      match select2 (pick ch j) ts td with
      | Sends t =>
          let r := Digest (S j) t rest in
          mkDigested ((t, ret c) :: sent r) (events c ++ did r) (exit r)
      | Returns t => mkDigested [] (events c) (Cancelled t)
      | Blocks => mkDigested [] (events c) Stuck
      end
  end.

End Digest.

Section Run.

(** [runtime.NumCPU()] *)
Variable NumCPU : Z.

(** [for i := 0; i < n; i++ { go ... }]; [n] is an [int] and [i] stays
    below it, so [i++] does not wrap. *)
Fixpoint startDigesters (fuel : nat) (i n : Z) : list Goroutine :=
  match fuel with
  | O => []
  | S fuel' => if i <? n then Digester :: startDigesters fuel' (i + 1) n else []
  end.

(** [wg.Add(n)], the loop, the closer, [return n]. *)
Definition Run (n : Z) : Started :=
  let n := if n <=? 0 then NumCPU else n in
  let gs := startDigesters (Z.to_nat n) 0 n in
  mkStarted n (gs ++ [Closer]) n.

End Run.

End shared.

(** *** The goroutines of one pool, interleaved *)

(** Where a digester goroutine stands in [isc.Digest(); wg.Done()], and
    the closer in [wg.Wait(); close(isc.Result)]. *)
Inductive DigesterPc : Type := InDigest | AtWgDone | Gone.
Inductive CloserPc : Type := AtWait | AtClose | CloserGone.

Record Pool : Type := mkPool {
  digesters : list DigesterPc;
  counter : Z;          (* the wait group *)
  closer : CloserPc;
  closes : nat;         (* how many times [close(isc.Result)] ran *)
  emitted : nat;        (* values sent on [isc.Result] *)
  dropped : nat         (* values given up on [Done] *)
}.

Definition boot (s : Started) : Pool :=
  mkPool (map (fun _ => InDigest) (filter isDigester (spawned s)))
         (wg s) AtWait 0%nat 0%nat 0%nat.

(** One goroutine makes one move.  A digester inside [Digest] may send a
    value, give one up, or return from [Digest]; then it calls [wg.Done()].
    The closer passes [wg.Wait()] once the counter is zero, then closes. *)
Inductive step : Pool -> Pool -> Prop :=
| step_emit : forall l1 l2 c k n e d,
    step (mkPool (l1 ++ InDigest :: l2) c k n e d)
         (mkPool (l1 ++ InDigest :: l2) c k n (S e) d)
| step_drop : forall l1 l2 c k n e d,
    step (mkPool (l1 ++ InDigest :: l2) c k n e d)
         (mkPool (l1 ++ InDigest :: l2) c k n e (S d))
| step_return : forall l1 l2 c k n e d,
    step (mkPool (l1 ++ InDigest :: l2) c k n e d)
         (mkPool (l1 ++ AtWgDone :: l2) c k n e d)
| step_wg_done : forall l1 l2 c k n e d,
    step (mkPool (l1 ++ AtWgDone :: l2) c k n e d)
         (mkPool (l1 ++ Gone :: l2) (c - 1) k n e d)
| step_wait : forall l n e d,
    step (mkPool l 0 AtWait n e d) (mkPool l 0 AtClose n e d)
| step_close : forall l c n e d,
    step (mkPool l c AtClose n e d) (mkPool l c CloserGone (S n) e d).

Inductive steps : Pool -> Pool -> Prop :=
| steps_refl : forall p, steps p p
| steps_then : forall p q r, steps p q -> step q r -> steps p r.

Definition allGone (p : Pool) : Prop := Forall (fun w => w = Gone) (digesters p).

Definition halted (p : Pool) : Prop := forall q, ~ step p q.

(* ================================================================== *)
(** ** Package cloud, the revision with the guard on [img.Error] *)

Module cloud.

Section ImageStateChecker.

(** [errors.ErrImgInvalid.Error()] and [errors.ErrClientTimeout.Error()]:
    the file that declares these two constants is not among the
    sources, so their texts are parameters. *)
Variable ErrImgInvalid ErrClientTimeout : string.
(** [gql.ProjectImage] *)
Variable ProjectImage : Remote.
(** [isc.Timeout] *)
Variable Timeout : Duration.

(** The body of [go func() { ... }()] in [checkState]: [k] queries were
    made before, the clock shows [now], [i] is the local copy. *)
Fixpoint poll (fuel : nat) (img : Image) (k : nat) (now : Z) (i : Image) : Poll :=
  match fuel with
  | O => mkPoll [] None
  | S fuel' =>
      let c := ProjectImage (PID img) (IID img) k in
      let q := Query now (PID img) (IID img) k in
      let now := now + Z.of_N (latency c) in
      match reply c with
      | Failed msg =>
          let i := set_Error i msg in
          mkPoll [q] (Some (now, i))
      | Answer st errs =>
          let i := set_State i st in
          if (st =? "Ready")%string then mkPoll [q] (Some (now, i))
          else if (st =? "Invalid")%string then
            let i := set_Error i (Join errs ";") in
            let i := if (Error i =? "")%string then set_Error i ErrImgInvalid else i in
            mkPoll [q] (Some (now, i))
          else
            let r := poll fuel' img (S k) (now + Second) i in
            mkPoll (q :: Sleep now :: trace r) (offer r)
      end
  end.

Definition checkState (tie : bool) (now : Z) (img : Image) : Checked :=
  if negb (Error img =? "")%string then mkChecked img now []
  else
    let r := poll (rounds Timeout) img 0%nat now img in
    let '(t, ret) :=
      race tie (fires now Timeout) (set_Error img ErrClientTimeout) (offer r) in
    mkChecked ret t (trace r).

Definition Digest (ch : Channels) : nat -> Z -> list Image -> Digested :=
  shared.Digest checkState ch.

End ImageStateChecker.

Definition Run : Z -> Z -> Started := shared.Run.

End cloud.

(* ================================================================== *)
(** ** Package cloud, the revision that queries before its loop *)

Module cloud0.

Section ImageStateChecker.

Variable ErrClientTimeout : string.
Variable ProjectImage : Remote.
Variable Timeout : Duration.

(** The [for] loop of the goroutine: [qImg] and [err] were assigned
    before it and are not assigned in it. *)
Fixpoint loop (fuel : nat) (q : Reply) (now : Z) (i : Image) : Poll :=
  match fuel with
  | O => mkPoll [] None
  | S fuel' =>
      match q with
      | Failed msg =>
          let i := set_Error i msg in
          mkPoll [] (Some (now, i))
      | Answer st errs =>
          let i := set_State i st in
          if (st =? "Ready")%string || (st =? "Invalid")%string
          then mkPoll [] (Some (now, i))
          else
            let r := loop fuel' q (now + Second) i in
            mkPoll (Sleep now :: trace r) (offer r)
      end
  end.

(** The body of [go func() { ... }()]: one query, then the loop. *)
Definition poll (fuel : nat) (img : Image) (now : Z) : Poll :=
  let c := ProjectImage (PID img) (IID img) 0%nat in
  let r := loop fuel (reply c) (now + Z.of_N (latency c)) img in
  mkPoll (Query now (PID img) (IID img) 0%nat :: trace r) (offer r).

Definition checkState (tie : bool) (now : Z) (img : Image) : Checked :=
  let r := poll (rounds Timeout) img now in
  let '(t, ret) :=
    race tie (fires now Timeout) (set_Error img ErrClientTimeout) (offer r) in
  mkChecked ret t (trace r).

Definition Digest (ch : Channels) : nat -> Z -> list Image -> Digested :=
  shared.Digest checkState ch.

End ImageStateChecker.

Definition Run : Z -> Z -> Started := shared.Run.

End cloud0.

(* ================================================================== *)
(** ** Package service *)

Module service.

Import errors.

(** [types.Project].  The fields [GigaPixel], [Date], [CloudPath] and
    [Downloads] (a float, a time and two types of other files) are left
    out; [CheckPID] reads [IsImported] only. *)
Record Project : Type := mkProject {
  ID : string;
  Name : string;
  IsImported : bool;
  ImportedState : string;
  ProjectType : string;
  NumImage : Z;
  TaskState : string
}.

Section Checker.

(** What the checks act on: the log output, the network, the files. *)
Variable World : Type.

(** [LogFn]: a format, its arguments, and the effect of printing. *)
Definition LogFn : Type := string -> list string -> World -> World.

(** [CheckFn]: [nil] is [None]. *)
Definition CheckFn : Type := LogFn -> World -> option error * World.

(** [log.Printf] *)
Variable log_Printf : LogFn.

(** [for _, c := range cs { ... }; return nil] *)
Fixpoint range (logger : LogFn) (cs : list CheckFn) (w : World)
  : option error * World :=
  match cs with
  | [] => (None, w)
  | c :: cs' =>
      match c logger w with
      | (Some err, w) => (Some err, w)
      | (None, w) => range logger cs' w
      end
  end.

(** [logger] is a function value that may be [nil]. *)
Definition Check (logger : option LogFn) (cs : list CheckFn) (w : World)
  : option error * World :=
  let logger := match logger with None => log_Printf | Some l => l end in
  range logger cs w.

(** [gql.SearchProjectID(pid, myself)]: the project, or an error. *)
Variable SearchProjectID : string -> bool -> World -> (Project + error) * World.

Definition CheckPID (kind pid : string) : CheckFn :=
  fun logger w =>
    match SearchProjectID pid true w with
    | (inr err, w) =>
        let w := logger "Project could not be found! Error:" [Error err] w in
        (Some err, w)
    | (inl p, w) =>
        let notFound (w : World) : option error * World :=
          let w := logger "%q project could nont be found!" [kind] w in
          (Some ErrProjNotFound, w) in
        if (kind =? "image")%string then (None, w)
        else if (kind =? "meta")%string then
          if IsImported p then notFound w else (None, w)
        else if (kind =? "model")%string then
          if negb (IsImported p) then notFound w else (None, w)
        else (None, w)
    end.

(** *** The other checkers of the file *)

(** [QuietLog] *)
Definition QuietLog : LogFn := fun _ _ w => w.

(** [gql.ActiveSystemMode()] *)
Variable ActiveSystemMode : World -> string * World.

(** [NormalMode] and [ReadOnlyMode] of this package, and
    [errors.ErrReadOnly], are declared in files that are not among the
    sources: they are parameters. *)
Variable NormalMode ReadOnlyMode : string.
Variable ErrReadOnly : error.

Definition CheckAPIServer : CheckFn :=
  fun logger w =>
    let '(mode, w) := ActiveSystemMode w in
    if negb (mode =? NormalMode)%string then
      let w := logger "API server is in %q mode.\n" [mode] w in
      let w := logger "Nothing could be uploaded at the moment!\n" [] w in
      if (mode =? ReadOnlyMode)%string then (Some ErrReadOnly, w)
      else (Some ErrOffline, w)
    else (None, w).

Definition CheckAPIServerLite : CheckFn :=
  fun logger w =>
    let '(mode, w) := ActiveSystemMode w in
    if negb (mode =? NormalMode)%string && negb (mode =? ReadOnlyMode)%string
    then (Some ErrOffline, w)
    else (None, w).

(** [web.PreferredLocalURL(verbose)], of which the URL and the error are
    used, and [pu.Hostname()]. *)
Variable URL : Type.
Variable Hostname : URL -> string.
Variable PreferredLocalURL : bool -> World -> (URL + error) * World.

Definition CheckDirectUpload (verbose : bool) (logger : option LogFn) (w : World)
  : option error * World :=
  let logger := match logger with None => log_Printf | Some l => l end in
  let w := logger "Checking direct upload..." [] w in
  match PreferredLocalURL verbose w with
  | (inr err, w) =>
      let w := logger "Client is invisible. Direct upload is not supported!" [] w in
      (Some err, w)
  | (inl pu, w) =>
      let w := logger "Direct upload is supported over %q\n" [Hostname pu] w in
      (None, w)
  end.

(** [web.CheckVisibilityIPPort(ip, port, true)], of which the error is
    used. *)
Variable CheckVisibilityIPPort : string -> string -> bool -> World -> option error * World.

Definition CheckDirectUploadIPPort (ip port : string) (logger : option LogFn) (w : World)
  : option error * World :=
  let logger := match logger with None => log_Printf | Some l => l end in
  match CheckVisibilityIPPort ip port true w with
  | (Some err, w) =>
      let url := ("http://" ++ ip ++ ":" ++ port)%string in
      let w := logger "%q is not accessible!" [url] w in
      (Some err, w)
  | (None, w) => (None, w)
  end.

(** [gql.SupportedCloud], [strings.ToLower], [text.BestMatch]; the constant
    [DirectUploadMethod] of this package and [errors.ErrUploadMethodInvalid]
    are declared in files that are not among the sources.  A slice handed
    to the logger is handed over joined by blanks. *)
Variable SupportedCloud : string -> string -> string -> World -> list string * World.
Variable ToLower : string -> string.
Variable BestMatch : list string -> string -> string -> string.
Variable DirectUploadMethod : string.
Variable ErrUploadMethodInvalid : error.

Definition CheckUploadMethod (kind method ip port : string) (skip : bool) : CheckFn :=
  fun logger w =>
    if skip then (None, w)
    else if (method =? "")%string then
      let w := logger "No upload method is provided." [] w in
      (Some ErrUploadMethodInvalid, w)
    else
      let '(supMethods, w) := SupportedCloud "" "" kind w in
      let method := ToLower method in
      if (method =? DirectUploadMethod)%string then
        if negb (ip =? "")%string && negb (port =? "")%string then
          match CheckDirectUploadIPPort ip port (Some logger) w with
          | (Some err, w) => (Some err, w)
          | (None, w) => (None, w)
          end
        else
          match CheckDirectUpload false (Some logger) w with
          | (Some err, w) =>
              let w := logger "Supported upload methods are: %q!" [Join supMethods " "] w in
              (Some err, w)
          | (None, w) => (None, w)
          end
      else if (BestMatch supMethods method "" =? "")%string then
        let w := logger "Upload method: %q is not supported!\n" [method] w in
        let w :=
          match supMethods with
          | [] => logger "No supported mehtod is found! You could only use 'direct' upload!" [] w
          | [m] => logger "Only %q upload is supported!" [m] w
          | _ => logger "Supported upload methods are: %q!" [Join supMethods " "] w
          end in
        (Some ErrUploadMethodInvalid, w)
      else (None, w).

(** [os.Stat], [os.IsNotExist] (which is [false] on [nil]) and
    [fi.Mode().IsDir()]. *)
Variable FileInfo : Type.
Variable Stat : string -> World -> (FileInfo + error) * World.
Variable IsNotExist : error -> bool.
Variable IsDir : FileInfo -> bool.

Definition CheckFile (f : string) : CheckFn :=
  fun logger w =>
    match Stat f w with
    | (inr err, w) =>
        if IsNotExist err then
          let w := logger "Could not found file: %q" [f] w in
          (Some err, w)
        else (None, w)
    | (inl _, w) => (None, w)
    end.

(** [errors.ErrFileNotDir], [errors.ErrFileNotZip] and
    [errors.ErrFileNotDirOrZip] are declared in a file that is not among
    the sources. *)
Variable ErrFileNotDir ErrFileNotZip ErrFileNotDirOrZip : error.

Definition CheckDir (d : string) : CheckFn :=
  fun logger w =>
    match Stat d w with
    | (inl fi, w) => if IsDir fi then (None, w) else (Some ErrFileNotDir, w)
    | (inr _, w) => (Some ErrFileNotDir, w)
    end.

(** [file.IsZipFile] *)
Variable IsZipFile : string -> World -> (bool + error) * World.

Definition CheckZip (f : string) : CheckFn :=
  fun logger w =>
    match IsZipFile f w with
    | (inr err, w) => (Some err, w)
    | (inl isZip, w) =>
        if negb isZip then
          let w := logger "Not a zip file: %q" [f] w in
          (Some ErrFileNotZip, w)
        else (None, w)
    end.

Definition CheckDirOrZip (p : string) : CheckFn :=
  let cd := CheckDir p in
  let cz := CheckZip p in
  fun logger w =>
    let '(e1, w) := cd QuietLog w in
    let '(e2, w) := cz QuietLog w in
    match e1, e2 with
    | Some _, Some _ => (Some ErrFileNotDirOrZip, w)
    | _, _ => (None, w)
    end.

(** [filepath.Base], [filepath.Join], [text.Contains] (of which the
    boolean is used) and [errors.ErrMetaFilenameInvalid]. *)
Variable Base : string -> string.
Variable filepath_Join : string -> string -> string.
Variable Contains : list string -> string -> bool.
Variable ErrMetaFilenameInvalid : error.

Definition CheckFilenames (filePath : string) (allowed : list string) : CheckFn :=
  fun logger w =>
    let filename := Base filePath in
    let valid := Contains allowed filename in
    if negb valid then
      let w := logger "Filename: %q is invalid" [filename] w in
      let w := logger "Filename must be one of: [%v]" [Join allowed ", "] w in
      (Some ErrMetaFilenameInvalid, w)
    else (None, w).

(** [ValidMetafileNames] of this package and [file.IsFileExist]. *)
Variable ValidMetafileNames : list string.
Variable IsFileExist : string -> World -> bool * World.

(** [for _, name := range ValidMetafileNames { ... }] *)
Fixpoint findMetafiles (dir : string) (names : list string) (ret : list string)
    (w : World) : list string * World :=
  match names with
  | [] => (ret, w)
  | name :: names' =>
      let p := filepath_Join dir name in
      let '(found, w) := IsFileExist p w in
      let ret := if found then ret ++ [p] else ret in
      findMetafiles dir names' ret w
  end.

Definition GetMetafilePaths (dir : string) (w : World)
  : (list string * option error) * World :=
  let ret := [] in
  let cd := CheckDir dir in
  match cd QuietLog w with
  | (Some err, w) => ((ret, Some err), w)
  | (None, w) =>
      let '(ret, w) := findMetafiles dir ValidMetafileNames ret w in
      ((ret, None), w)
  end.

End Checker.

End service.

(* ================================================================== *)
(** ** The tables of tablewriter, as the commands fill them *)

Module tablewriter.

(** A table: its header and its rows, in the order in which they were
    appended. *)
Record Table : Type := mkTable { header : list string; rows : list (list string) }.

Definition NewWriter : Table := mkTable [] [].

Definition SetHeader (t : Table) (keys : list string) : Table := mkTable keys (rows t).

Definition Append (t : Table) (row : list string) : Table :=
  mkTable (header t) (rows t ++ [row]).

Definition AppendBulk (t : Table) (rs : list (list string)) : Table :=
  mkTable (header t) (rows t ++ rs).

End tablewriter.

(* ================================================================== *)
(** ** Package gql: the buckets *)

Module gql.

(** [bucketType]: a map of maps, looked up by key. *)
Definition bucketType : list (string * list (string * string)) :=
  [("image", [("s3", "BucketS3"); ("oss", "BucketOSS"); ("minio", "BucketMinio")]);
   ("model", [("s3", "BucketS3Model"); ("minio", "BucketMinioModel")])].

(** [v, ok := m[k]] *)
Fixpoint lookup {A : Type} (m : list (string * A)) (k : string) : option A :=
  match m with
  | [] => None
  | (k', v) :: m' => if (k =? k')%string then Some v else lookup m' k
  end.

(** The active profile of the configuration, of which [Endpoint] and
    [Key] are used, and the request handed to the GraphQL client. *)
Record Active : Type := mkActive { Endpoint : string; Key : string }.

Record Request : Type := mkRequest {
  url : string;
  query : string;
  header_key : string;
  var_type : string
}.

Definition bucketQuery : string :=
  "
		query ($type: String!) {
			__type(name: $type) {
				enumValues {
					name
				}
			}
		}
	".

Section BucketList.

Variable World : Type.

(** [errors.ErrBucketInvalid] is declared in a file that is not among the
    sources. *)
Variable ErrBucketInvalid : errors.error.

(** [config.Load().GetActive()], and [client.Run(ctx, req, &res)] with
    the names of [res.Type.EnumValues] in their order. *)
Variable GetActive : World -> Active * World.
Variable client_Run : Request -> World -> (list string + errors.error) * World.

Definition BucketList (kind cloud : string) (w : World)
  : (list string * option errors.error) * World :=
  let ret : list string := [] in
  match lookup bucketType kind with
  | None => ((ret, Some ErrBucketInvalid), w)
  | Some b =>
      match lookup b cloud with
      | None => ((ret, Some ErrBucketInvalid), w)
      | Some t =>
          let '(active, w) := GetActive w in
          let req := mkRequest (Endpoint active ++ "/graphql")%string bucketQuery
                               (Key active) t in
          match client_Run req w with
          | (inr err, w) => ((ret, Some err), w)
          | (inl names, w) =>
              ((fold_left (fun ret name => ret ++ [name]) names ret, None), w)
          end
      end
  end.

End BucketList.

End gql.

(* ================================================================== *)
(** ** Package types: the project and its table row *)

Module types.

Section Project.

(** [float64], [time.Time], and [CloudPath] and [DownloadsConnection],
    which are declared in other files of the package; of a [CloudPath] the
    field [Key] is read.  This is the whole record; package service above
    reads a project through a record of its own with the fields it needs. *)
Variable float64 Time CloudPath DownloadsConnection : Type.
Variable Key : CloudPath -> string.

Record Project : Type := mkProject {
  ID : string;
  Name : string;
  IsImported : bool;
  ImportedState : string;
  ProjectType : string;
  NumImage : Z;
  GigaPixel : float64;
  TaskState : string;
  Date : Time;
  CloudPaths : list CloudPath;
  Downloads : DownloadsConnection
}.

(** [fmt.Sprintf] with the verbs [%d] and [%.2f], and [Time.Format]. *)
Variable Sprintf_d : Z -> string.
Variable Sprintf_2f : float64 -> string.
Variable Format : Time -> string -> string.

(** [fmt.Sprintf("%v", b)] for a boolean *)
Definition Sprintf_v (b : bool) : string := if b then "true" else "false".

Definition ProjectHeaderString : list string :=
  ["ID"; "Name"; "Is Imported"; "Project Type"; "Num Image"; "Giga-Pixel";
   "Task State"; "Cloud"; "Date"; "Model Link"].

(** [for _, c := range p.CloudPath { ret = append(ret, c.Key) }] *)
Definition Cloud (p : Project) : list string :=
  fold_left (fun ret c => ret ++ [Key c]) (CloudPaths p) [].

Definition RowString (p : Project) (webDomain : string) : list string :=
  [ID p;
   Name p;
   Sprintf_v (IsImported p);
   ProjectType p;
   Sprintf_d (NumImage p);
   Sprintf_2f (GigaPixel p);
   TaskState p;
   Join (Cloud p) ", ";
   Format (Date p) "2006-01-02 15:04:05";
   (webDomain ++ "/project-model?pid=" ++ ID p)%string].

(** [table.SetHeader], then [table.Append] for every project. *)
Definition ProjectsToTable (ps : list Project) (webDomain : string) : tablewriter.Table :=
  let table := tablewriter.NewWriter in
  let table := tablewriter.SetHeader table ProjectHeaderString in
  fold_left (fun table p => tablewriter.Append table (RowString p webDomain)) ps table.

End Project.

End types.

(* ================================================================== *)
(** ** Package cmd: the commands that use the checks and the buckets *)

Module cmd.

(** [validNames] *)
Definition validNames : list string := ["camera.txt"; "pose.txt"; "group.txt"].

(** How [bucketCmd] ends: the server is not in normal mode, or a query
    fails and the command panics, or the table is rendered. *)
Inductive Listing : Type :=
| Refused
| Panicked (err : errors.error)
| Rendered (table : tablewriter.Table).

Section Commands.

Variable World : Type.
Variable log_Printf : service.LogFn World.
(** [log.Println] *)
Variable log_Println : list string -> World -> World.

Variable ActiveSystemMode : World -> string * World.
Variable NormalMode ReadOnlyMode : string.
Variable ErrReadOnly : errors.error.
Variable SearchProjectID :
  string -> bool -> World -> (service.Project + errors.error) * World.
Variable FileInfo : Type.
Variable Stat : string -> World -> (FileInfo + errors.error) * World.
Variable IsNotExist : errors.error -> bool.
Variable Base : string -> string.
Variable Contains : list string -> string -> bool.
Variable ErrMetaFilenameInvalid : errors.error.

(** The pre-checks of [importMetaCmd], with [id] and [meta] the values of
    the flags. *)
Definition importMeta_checks (id meta : string) (w : World)
  : option errors.error * World :=
  service.Check World log_Printf None
    [service.CheckAPIServer World ActiveSystemMode NormalMode ReadOnlyMode ErrReadOnly;
     service.CheckPID World SearchProjectID "meta" id;
     service.CheckFile World FileInfo Stat IsNotExist meta;
     service.CheckFilenames World Base Contains ErrMetaFilenameInvalid meta validNames]
    w.

(** The checks of [exportImageCmd]. *)
Definition exportImage_checks (id : string) (w : World)
  : option errors.error * World :=
  service.Check World log_Printf None
    [service.CheckAPIServer World ActiveSystemMode NormalMode ReadOnlyMode ErrReadOnly;
     service.CheckPID World SearchProjectID "image" id]
    w.

(** [types.ProjectImage], declared in a file that is not among the
    sources, with the four fields the commands read; the flags [verbose]
    and [download]; [csv.Writer.Write] and [Flush]; [cloud.GetFile];
    [filepath.Join]; the type assertion [err.(errors.NetworkError)] with
    the [Code] of the error; [fmt.Sprintf("%d", n)]. *)
Variable ProjectImage : Type.
Variable img_Name img_Filename img_State img_URL : ProjectImage -> string.
Variable verbose : bool.
Variable download : string.
Variable csv_Write : list string -> World -> option errors.error * World.
Variable csv_Flush : World -> World.
Variable GetFile : string -> string -> World -> option errors.error * World.
Variable filepath_Join : string -> string -> string.
Variable asNetworkError : errors.error -> option Z.
Variable Sprintf_d : Z -> string.

(** The loop of [writeCSV]. *)
Fixpoint writeRows (imgs : list ProjectImage) (w : World) : option errors.error * World :=
  match imgs with
  | [] => (None, w)
  | img :: imgs' =>
      let fields := [img_Name img; img_Filename img; img_State img; img_URL img] in
      let w := if verbose then log_Println fields w else w in
      match csv_Write fields w with
      | (Some err, w) => (Some err, w)
      | (None, w) => writeRows imgs' w
      end
  end.

Definition writeCSV (imgs : list ProjectImage) (w : World)
  : (Z * option errors.error) * World :=
  match writeRows imgs w with
  | (Some err, w) => ((0, Some err), w)
  | (None, w) =>
      let w := csv_Flush w in
      ((Z.of_nat (List.length imgs), None), w)
  end.

Fixpoint downloadImages (imgs : list ProjectImage) (w : World)
  : option errors.error * World :=
  match imgs with
  | [] => (None, w)
  | img :: imgs' =>
      if negb (img_State img =? "Ready")%string then downloadImages imgs' w
      else
        let p := filepath_Join download (img_Name img) in
        match GetFile p (img_URL img) w with
        | (Some err, w) =>
            match asNetworkError err with
            | Some code =>
                let w := log_Printf "[Error] %s failed with status code: %d\n"
                                    [img_URL img; Sprintf_d code] w in
                downloadImages imgs' w
            | None => (Some err, w)
            end
        | (None, w) => downloadImages imgs' w
        end
  end.

(** [gql.SupportedCloud], [gql.BucketList] with what it needs,
    [gql.SuggestedBucket], [sort.Strings], [strings.ToLower]. *)
Variable SupportedCloud : string -> string -> string -> World -> list string * World.
Variable ErrBucketInvalid : errors.error.
Variable GetActive : World -> gql.Active * World.
Variable client_Run : gql.Request -> World -> (list string + errors.error) * World.
Variable SuggestedBucket : string -> string -> World -> (string + errors.error) * World.
Variable sort_Strings : list string -> list string.
Variable ToLower : string -> string.

(** [for _, c := range clouds { ... }] in [bucketCmd]: the rows so far,
    or the error the command panics with. *)
Fixpoint overClouds (k : string) (clouds : list string) (buckets : list (list string))
    (w : World) : (list (list string) + errors.error) * World :=
  match clouds with
  | [] => (inl buckets, w)
  | c :: clouds' =>
      match gql.BucketList World ErrBucketInvalid GetActive client_Run k c w with
      | ((_, Some err), w) =>
          if negb (errors.eqb err ErrBucketInvalid) then (inr err, w)
          else overClouds k clouds' buckets w
      | ((buks, None), w) =>
          match SuggestedBucket k c w with
          | (inr err, w) => (inr err, w)
          | (inl suggested, w) =>
              let buks := sort_Strings buks in
              let buckets :=
                buckets ++ [[k; ToLower c; Join buks ", "; suggested;
                             Sprintf_d (Z.of_nat (List.length buks))]] in
              overClouds k clouds' buckets w
          end
      end
  end.

(** [for _, k := range kinds { ... }] *)
Fixpoint overKinds (kinds : list string) (buckets : list (list string)) (w : World)
  : (list (list string) + errors.error) * World :=
  match kinds with
  | [] => (inl buckets, w)
  | k :: kinds' =>
      let '(clouds, w) := SupportedCloud "" "" k w in
      match overClouds k clouds buckets w with
      | (inr err, w) => (inr err, w)
      | (inl buckets, w) => overKinds kinds' buckets w
      end
  end.

(** [bucketCmd.Run] *)
Definition bucketCmd (w : World) : Listing * World :=
  let '(mode, w) := ActiveSystemMode w in
  if negb (mode =? "Normal")%string then
    let w := log_Printf "API server is in %q mode.\n" [mode] w in
    let w := log_Println ["Nothing could be uploaded at the moment!"] w in
    (Refused, w)
  else
    let kinds := ["image"; "meta"; "model"] in
    match overKinds kinds [] w with
    | (inr err, w) => (Panicked err, w)
    | (inl buckets, w) =>
        let table := tablewriter.NewWriter in
        let table :=
          tablewriter.SetHeader table ["Kind"; "Cloud"; "Buckets"; "Suggested"; "Count"] in
        let table := tablewriter.AppendBulk table buckets in
        (Rendered table, w)
    end.

End Commands.

End cmd.

(* ================================================================== *)
(** * What the properties speak of *)

(** A reply that ends the polling: a failed query, [Ready], [Invalid]. *)
Definition terminal (r : Reply) : bool :=
  match r with
  | Failed _ => true
  | Answer st _ => ((st =? "Ready") || (st =? "Invalid"))%string
  end.

(** The queries of a trace, and their numbers. *)
Definition queries (l : list Event) : list Event := filter isQuery l.

Definition number (e : Event) : option nat :=
  match e with Query _ _ _ k => Some k | Sleep _ => None end.

(** The instant at which the reply to query [k0 + n] is back, when query
    [k0] is sent at [now] and every reply before it is followed by a sleep
    of one second. *)
Fixpoint arrival (P : Remote) (img : Image) (k0 : nat) (now : Z) (n : nat) : Z :=
  match n with
  | O => now + Z.of_N (latency (P (PID img) (IID img) k0))
  | S n' =>
      arrival P img (S k0)
        (now + Z.of_N (latency (P (PID img) (IID img) k0)) + Second) n'
  end.

(** What the local copy [i] has become after the [n] replies from [k0]
    on, none of which ends the loop, and what the goroutine sends when the
    reply [r] ends it. *)
Definition seen (i : Image) (r : Reply) : Image :=
  match r with
  | Answer st _ => set_State i st
  | Failed _ => i
  end.

Fixpoint lastSeen (P : Remote) (img : Image) (k0 n : nat) (i : Image) : Image :=
  match n with
  | O => i
  | S n' => lastSeen P img (S k0) n' (seen i (reply (P (PID img) (IID img) k0)))
  end.

Definition invalidText (ErrImgInvalid : string) (errs : list string) : string :=
  if (Join errs ";" =? "")%string then ErrImgInvalid else Join errs ";".

Definition settle (ErrImgInvalid : string) (i : Image) (r : Reply) : Image :=
  match r with
  | Failed msg => set_Error i msg
  | Answer st errs =>
      if (st =? "Invalid")%string
      then mkImage (PID i) (IID i) st (invalidText ErrImgInvalid errs)
      else set_State i st
  end.

(** The trace up to the reply to query [k0 + n]: a query, and after each
    reply but the last a sleep, the next query one second after it. *)
Fixpoint expected (P : Remote) (img : Image) (k0 : nat) (now : Z) (n : nat) : list Event :=
  match n with
  | O => [Query now (PID img) (IID img) k0]
  | S n' =>
      let back := now + Z.of_N (latency (P (PID img) (IID img) k0)) in
      Query now (PID img) (IID img) k0 :: Sleep back ::
      expected P img (S k0) (back + Second) n'
  end.

Definition settle0 (i : Image) (r : Reply) : Image :=
  match r with
  | Failed msg => set_Error i msg
  | Answer st _ => set_State i st
  end.

(** No reply that ends the polling is back before the timer fires: the
    first such reply, if there is one, arrives after it. *)
Definition nothingInTime (P : Remote) (Timeout : Duration) (now : Z) (img : Image) : Prop :=
  forall n,
    (forall j, (j < n)%nat -> terminal (reply (P (PID img) (IID img) j)) = false) ->
    terminal (reply (P (PID img) (IID img) n)) = true ->
    fires now Timeout < arrival P img 0 now n.

Definition isGone (w : DigesterPc) : bool :=
  match w with Gone => true | _ => false end.

(** The digesters that have not called [wg.Done()] yet. *)
Definition pending (l : list DigesterPc) : nat :=
  List.length (filter (fun w => negb (isGone w)) l).

(** What holds of a pool of [N] digesters all along: the wait group counts
    the digesters that have not called [wg.Done()]; the closer is past
    [wg.Wait()] only when there is none left, and has closed [Result] once
    when it is through, and not before. *)
Record sound (N : nat) (p : Pool) : Prop := mkSound {
  sound_size : List.length (digesters p) = N;
  sound_counter : counter p = Z.of_nat (pending (digesters p));
  sound_closer :
    match closer p with
    | AtWait => closes p = 0%nat
    | AtClose => closes p = 0%nat /\ allGone p
    | CloserGone => closes p = 1%nat /\ allGone p
    end
}.

(** Every one of the checkers [cs], run in order with [logger] from the
    world [w], passes, and they leave the world [w']. *)
Inductive passes {World : Type} (logger : service.LogFn World)
  : list (service.CheckFn World) -> World -> World -> Prop :=
| passes_nil : forall w, passes logger [] w w
| passes_cons : forall c cs w w1 w2,
    c logger w = (None, w1) ->
    passes logger cs w1 w2 ->
    passes logger (c :: cs) w w2.

(** The logger the checkers get. *)
Definition given {World : Type} (log_Printf : service.LogFn World)
    (logger : option (service.LogFn World)) : service.LogFn World :=
  match logger with
  | None => log_Printf
  | Some l => l
  end.

(** The identity of an item. *)
Definition ident (i : Image) : string * string := (PID i, IID i).

(** The pairs of kind and cloud, and the type names, of [gql.bucketType]. *)
Definition bucketPairs : list (string * string) :=
  [("image", "s3"); ("image", "oss"); ("image", "minio");
   ("model", "s3"); ("model", "minio")].

Definition bucketTypeNames : list string :=
  ["BucketS3"; "BucketOSS"; "BucketMinio"; "BucketS3Model"; "BucketMinioModel"].

(** A row of the listing of buckets: five cells, the first two a kind
    and, in lower case, a cloud that [gql.BucketList] knows as a pair. *)
Definition isBucketRow (ToLower : string -> string) (row : list string) : Prop :=
  exists k c buckets suggested count,
    row = [k; ToLower c; buckets; suggested; count] /\ In (k, c) bucketPairs.

(** What the export of images speaks of, over the images, the writer and
    the fetches of [cmd/project-image.go]. *)
Section Exported.

Variable World : Type.
Variable log_Printf : service.LogFn World.
Variable log_Println : list string -> World -> World.
Variable ProjectImage : Type.
Variable img_Name img_Filename img_State img_URL : ProjectImage -> string.
Variable verbose : bool.
Variable download : string.
Variable csv_Write : list string -> World -> option errors.error * World.
Variable GetFile : string -> string -> World -> option errors.error * World.
Variable filepath_Join : string -> string -> string.
Variable asNetworkError : errors.error -> option Z.
Variable Sprintf_d : Z -> string.

(** The row of an image in the sheet. *)
Definition rowOf (img : ProjectImage) : list string :=
  [img_Name img; img_Filename img; img_State img; img_URL img].

(** The world in which the row of an image is written: the row is logged
    first when [verbose] is set. *)
Definition announced (img : ProjectImage) (w : World) : World :=
  if verbose then log_Println (rowOf img) w else w.

(** The rows of [imgs] are written one after the other, from the world [w]
    to the world [w'], and [Write] returns no error for any of them. *)
Inductive written : list ProjectImage -> World -> World -> Prop :=
| written_nil : forall w, written [] w w
| written_cons : forall img imgs w w1 w2,
    csv_Write (rowOf img) (announced img w) = (None, w1) ->
    written imgs w1 w2 ->
    written (img :: imgs) w w2.

(** The one fetch of an image that is [Ready]: to the file of its name in
    the directory [download], from its URL. *)
Definition fetch (img : ProjectImage) (w : World) : option errors.error * World :=
  GetFile (filepath_Join download (img_Name img)) (img_URL img) w.

(** The images [imgs] are gone through one after the other, from the world
    [w] to the world [w'], and none stops the download: an image that is not
    [Ready] is left alone, an image that is [Ready] is fetched, and when the
    fetch fails with a network error, the URL and the code of the error are
    logged. *)
Inductive fetched : list ProjectImage -> World -> World -> Prop :=
| fetched_nil : forall w, fetched [] w w
| fetched_skip : forall img imgs w w',
    img_State img <> "Ready" ->
    fetched imgs w w' ->
    fetched (img :: imgs) w w'
| fetched_ok : forall img imgs w w1 w',
    img_State img = "Ready" ->
    fetch img w = (None, w1) ->
    fetched imgs w1 w' ->
    fetched (img :: imgs) w w'
| fetched_net : forall img imgs w err code w1 w',
    img_State img = "Ready" ->
    fetch img w = (Some err, w1) ->
    asNetworkError err = Some code ->
    fetched imgs
      (log_Printf "[Error] %s failed with status code: %d\n"
                  [img_URL img; Sprintf_d code] w1) w' ->
    fetched (img :: imgs) w w'.

End Exported.

(** ** Remote services, channels and checkers used as instances *)

(** A query that comes back [Pending] first and [Ready] from then on. *)
Definition pendingThenReady : Remote :=
  fun _ _ k =>
    match k with
    | O => mkCall 0 (Answer "Pending" [])
    | S _ => mkCall 0 (Answer "Ready" [])
    end.

(** An item whose state is [Pending] for ever. *)
Definition alwaysPending : Remote := fun _ _ _ => mkCall 0 (Answer "Pending" []).

(** The server reports [Invalid] and no message. *)
Definition invalidNoMessage : Remote := fun _ _ _ => mkCall 0 (Answer "Invalid" []).

(** The scenario of the specification: [Invalid] with the message
    ["corrupt"]. *)
Definition invalidCorrupt : Remote := fun _ _ _ => mkCall 0 (Answer "Invalid" ["corrupt"]).

Definition readyAtOnce : Remote := fun _ _ _ => mkCall 0 (Answer "Ready" []).

(** Two replies [Pending], then [Ready]. *)
Definition readyAfterTwo : Remote :=
  fun _ _ k =>
    match k with
    | O | S O => mkCall 0 (Answer "Pending" [])
    | _ => mkCall 0 (Answer "Ready" [])
    end.



(** A world that is the list of the lines logged, the latest first, and
    checkers that log their name and pass or fail. *)
Definition Lines : Type := list (string * list string).

Definition printLine : service.LogFn Lines := fun format args w => (format, args) :: w.

Definition passing (name : string) : service.CheckFn Lines :=
  fun logger w => (None, logger "pass %q" [name] w).

Definition failing (name : string) (err : errors.error) : service.CheckFn Lines :=
  fun logger w => (Some err, logger "fail %q" [name] w).

(** A service on which every project is found, imported or not. *)
Definition alwaysFound (imported : bool)
  : string -> bool -> Lines -> (service.Project + errors.error) * Lines :=
  fun pid _ w => (inl (service.mkProject pid "" imported "" "" 0 ""), w).

(** [Done] is never closed and a receiver is always there. *)
Definition openChannels : Channels :=
  mkChannels None (fun _ => Some 0%N) (fun _ => true) (fun _ => true).

(** A host to run the checks and the commands on: the mode of the server,
    its projects, the directories, files and zip files of the disk, and the
    lines logged so far, the latest first. *)
Record Host : Type := mkHost {
  serverMode : string;
  projects : list (string * bool);
  directories : list string;
  regular : list string;
  zipped : list string;
  logged : Lines
}.

Definition mem (s : string) (l : list string) : bool := existsb (String.eqb s) l.

Definition noSuchFile : errors.error := errors.Foreign "no such file or directory".

Definition hostPrintf : service.LogFn Host :=
  fun format args h =>
    mkHost (serverMode h) (projects h) (directories h) (regular h) (zipped h)
           ((format, args) :: logged h).

Definition hostPrintln : list string -> Host -> Host :=
  fun args h => hostPrintf "%v" args h.

Definition hostMode : Host -> string * Host := fun h => (serverMode h, h).

Definition hostSearch : string -> bool -> Host -> (service.Project + errors.error) * Host :=
  fun pid _ h =>
    match gql.lookup (projects h) pid with
    | Some imported => (inl (service.mkProject pid "" imported "" "" 0 ""), h)
    | None => (inr errors.ErrProjNotFound, h)
    end.

(** The file info is whether the path is a directory. *)
Definition hostStat : string -> Host -> (bool + errors.error) * Host :=
  fun f h =>
    if mem f (directories h) then (inl true, h)
    else if mem f (regular h) then (inl false, h)
    else (inr noSuchFile, h).

Definition hostIsNotExist : errors.error -> bool := fun e => errors.eqb e noSuchFile.

Definition hostIsZip : string -> Host -> (bool + errors.error) * Host :=
  fun f h =>
    if mem f (regular h) then (inl (mem f (zipped h)), h) else (inr noSuchFile, h).

Definition hostIsFile : string -> Host -> bool * Host := fun f h => (mem f (regular h), h).

Definition slashJoin : string -> string -> string := fun d n => (d ++ "/" ++ n)%string.

(** A server in normal mode with a project that is imported and one that
    is not, and a disk with a directory of meta files. *)
Definition office : Host :=
  mkHost "Normal" [("p1", true); ("p2", false)]
         ["meta"] ["pose.txt"; "meta/camera.txt"; "meta/group.txt"; "model.zip"]
         ["model.zip"] [].

Definition readOnlyOffice : Host :=
  mkHost "ReadOnly" [("p1", true); ("p2", false)]
         ["meta"] ["pose.txt"; "meta/camera.txt"; "meta/group.txt"; "model.zip"]
         ["model.zip"] [].

(** A server that reports the clouds ["s3"] and ["oss"] for every kind,
    ["meta"] included, and two buckets for every type. *)
Definition everyCloud : string -> string -> string -> Host -> list string * Host :=
  fun _ _ _ h => (["s3"; "oss"], h).

Definition hostActive : Host -> gql.Active * Host :=
  fun h => (gql.mkActive "https://api" "key", h).

Definition twoBuckets : gql.Request -> Host -> (list string + errors.error) * Host :=
  fun _ h => (inl ["b2"; "b1"], h).

Definition firstBucket : string -> string -> Host -> (string + errors.error) * Host :=
  fun _ _ h => (inl "b1", h).

(** An image of a project, with the four fields the export reads. *)
Record Shot : Type := mkShot {
  shotName : string;
  shotFilename : string;
  shotState : string;
  shotURL : string
}.

(** A desk to export images on: the rows of the sheet, how often the
    writer was flushed, the fetches as pairs of a path and a URL, and the
    lines logged, the latest first in each list. *)
Record Desk : Type := mkDesk {
  sheet : list (list string);
  flushes : nat;
  fetches : list (string * string);
  notes : Lines
}.

Definition shortWrite : errors.error := errors.Foreign "short write".

Definition diskFull : errors.error := errors.Foreign "no space left on device".

Definition notFound : errors.error := errors.Foreign "404 Not Found".

Definition deskPrintf : service.LogFn Desk :=
  fun format args d => mkDesk (sheet d) (flushes d) (fetches d) ((format, args) :: notes d).

Definition deskPrintln : list string -> Desk -> Desk :=
  fun args d => deskPrintf "%v" args d.

(** A row without a name cannot be written. *)
Definition deskWrite : list string -> Desk -> option errors.error * Desk :=
  fun fields d =>
    if (hd "" fields =? "")%string then (Some shortWrite, d)
    else (None, mkDesk (fields :: sheet d) (flushes d) (fetches d) (notes d)).

Definition deskFlush : Desk -> Desk :=
  fun d => mkDesk (sheet d) (S (flushes d)) (fetches d) (notes d).

(** The URL ["gone"] is answered with the status 404, a network error; a
    file named ["huge"] does not fit on the disk. *)
Definition deskGetFile : string -> string -> Desk -> option errors.error * Desk :=
  fun p url d =>
    let d := mkDesk (sheet d) (flushes d) ((p, url) :: fetches d) (notes d) in
    if (url =? "gone")%string then (Some notFound, d)
    else if (p =? "out/huge")%string then (Some diskFull, d)
    else (None, d).

Definition deskNetworkError : errors.error -> option Z :=
  fun e => if errors.eqb e notFound then Some 404 else None.

Definition emptyDesk : Desk := mkDesk [] 0 [] [].

Definition fiveShots : list Shot :=
  [mkShot "a" "a.jpg" "Ready" "gone";
   mkShot "b" "b.jpg" "Pending" "ub";
   mkShot "c" "c.jpg" "Ready" "uc";
   mkShot "huge" "d.jpg" "Ready" "ud";
   mkShot "e" "e.jpg" "Ready" "ue"].

Definition threeRows : list Shot :=
  [mkShot "a" "a.jpg" "Ready" "ua";
   mkShot "" "b.jpg" "Pending" "ub";
   mkShot "c" "c.jpg" "Ready" "uc"].

(* ================================================================== *)
(** * Properties *)

Lemma Second_pos : 0 < Second.
Proof. unfold Second; lia. Qed.

Lemma arrival_after P img k0 now n : now + Z.of_nat n * Second <= arrival P img k0 now n.
Proof.
  revert k0 now; induction n as [|n IH]; intros k0 now; cbn [arrival].
  - lia.
  - specialize (IH (S k0) (now + Z.of_N (latency (P (PID img) (IID img) k0)) + Second)).
    pose proof Second_pos. lia.
Qed.

(** The timer fires before [rounds d] sleeps are over. *)
Lemma rounds_cover (now : Z) (d : Duration) :
  fires now d < now + Z.of_nat (rounds d) * Second.
Proof.
  unfold fires, rounds.
  pose proof Second_pos as Hs.
  assert (0 <= Z.max 0 d) by lia.
  rewrite Nat2Z.inj_succ, Z2Nat.id by (apply Z.div_pos; lia).
  pose proof (Z.mod_pos_bound (Z.max 0 d) Second Hs).
  pose proof (Z.div_mod (Z.max 0 d) Second ltac:(lia)). nia.
Qed.

Lemma race_timeout tie deadline onT o :
  (forall t x, o = Some (t, x) -> deadline < t) ->
  race tie deadline onT o = (deadline, onT).
Proof.
  intros H. destruct o as [[t x]|]; cbn; [|reflexivity].
  specialize (H t x eq_refl).
  destruct (Z.ltb_spec t deadline); [lia|].
  destruct (Z.ltb_spec deadline t); [reflexivity|lia].
Qed.

Lemma race_offer tie deadline onT t x :
  t < deadline -> race tie deadline onT (Some (t, x)) = (t, x).
Proof.
  intros H; cbn. destruct (Z.ltb_spec t deadline); [reflexivity|lia].
Qed.

(** ** The polling goroutine of the guarded revision *)

Section PollFacts.

Variable ErrImgInvalid : string.
Variable P : Remote.

Local Notation "'poll'" := (cloud.poll ErrImgInvalid P).
Local Notation "'call' img k" := (P (PID img) (IID img) k) (at level 10, img at level 9, k at level 9).

Lemma poll_offer_after fuel img k now i t x :
  offer (poll fuel img k now i) = Some (t, x) -> now <= t.
Proof.
  revert k now i; induction fuel as [|fuel IH]; intros k now i; cbn [cloud.poll].
  - discriminate.
  - destruct (reply (call img k)) as [msg|st errs]; cbn.
    + intros [= <- _]; lia.
    + destruct (st =? "Ready")%string; cbn; [intros [= <- _]; lia|].
      destruct (st =? "Invalid")%string; cbn; [intros [= <- _]; lia|].
      intros H; apply IH in H. pose proof Second_pos; lia.
Qed.

(** Once the goroutine has reached its send, more iterations change
    nothing. *)
Lemma poll_more_fuel fuel more img k now i :
  offer (poll fuel img k now i) <> None ->
  poll (fuel + more) img k now i = poll fuel img k now i.
Proof.
  revert k now i; induction fuel as [|fuel IH]; intros k now i; cbn [cloud.poll Nat.add].
  - intros H; exfalso; apply H; reflexivity.
  - destruct (reply (call img k)) as [msg|st errs]; [reflexivity|].
    destruct (st =? "Ready")%string; [reflexivity|].
    destruct (st =? "Invalid")%string; [reflexivity|].
    cbn [offer]; intros H. rewrite IH by exact H. reflexivity.
Qed.

(** A goroutine that has not reached its send after [fuel] iterations
    reaches it no earlier than [fuel] seconds after its start. *)
Lemma poll_none_late fuel fuel' img k now i t x :
  offer (poll fuel img k now i) = None ->
  offer (poll fuel' img k now i) = Some (t, x) ->
  now + Z.of_nat fuel * Second <= t.
Proof.
  revert fuel' k now i; induction fuel as [|fuel IH]; intros fuel' k now i.
  - intros _ H; apply poll_offer_after in H; lia.
  - destruct fuel' as [|fuel']; [intros _; discriminate|].
    cbn [cloud.poll].
    destruct (reply (call img k)) as [msg|st errs]; [discriminate|].
    destruct (st =? "Ready")%string; [discriminate|].
    destruct (st =? "Invalid")%string; [discriminate|].
    cbn [offer]; intros H1 H2.
    specialize (IH _ _ _ _ H1 H2). lia.
Qed.

(** The race of [checkState] is decided after [rounds Timeout]
    iterations: running the goroutine longer gives the same outcome. *)
Lemma race_decided tie now (Timeout : Duration) onT img fuel :
  (rounds Timeout <= fuel)%nat ->
  race tie (fires now Timeout) onT (offer (poll fuel img 0 now img)) =
  race tie (fires now Timeout) onT (offer (poll (rounds Timeout) img 0 now img)).
Proof.
  intros Hle.
  replace fuel with (rounds Timeout + (fuel - rounds Timeout))%nat by lia.
  destruct (offer (poll (rounds Timeout) img 0 now img)) as [[t x]|] eqn:E.
  - rewrite poll_more_fuel by (rewrite E; discriminate). rewrite E; reflexivity.
  - apply race_timeout. intros t x H.
    pose proof (poll_none_late _ _ _ _ _ _ _ _ E H).
    pose proof (rounds_cover now Timeout). lia.
Qed.

End PollFacts.

Lemma lastSeen_fields P img k0 n i :
  PID (lastSeen P img k0 n i) = PID i /\
  IID (lastSeen P img k0 n i) = IID i /\
  Error (lastSeen P img k0 n i) = Error i.
Proof.
  revert k0 i; induction n as [|n IH]; intros k0 i; cbn [lastSeen].
  - auto.
  - destruct (IH (S k0) (seen i (reply (P (PID img) (IID img) k0)))) as (H1 & H2 & H3).
    rewrite H1, H2, H3.
    destruct (reply (P (PID img) (IID img) k0)); cbn; auto.
Qed.

Lemma queries_expected P img k0 now n :
  map number (queries (expected P img k0 now n)) = map Some (seq k0 (S n)).
Proof.
  revert k0 now; induction n as [|n IH]; intros k0 now.
  - reflexivity.
  - cbn [expected queries filter isQuery map number seq].
    f_equal. apply IH.
Qed.

Section PollRuns.

Variable ErrImgInvalid : string.
Variable P : Remote.

Local Notation "'poll'" := (cloud.poll ErrImgInvalid P).

(** The loop of the guarded revision: if the reply to query [k0 + n] is
    the first that ends the loop, the goroutine makes the queries [k0] to
    [k0 + n], one per iteration, sleeps a second after each reply but the
    last, and then sends; no iteration bound beyond [n] adds anything. *)
Lemma poll_reaches n : forall fuel img k0 now i,
  (n < fuel)%nat ->
  (forall j, (j < n)%nat -> terminal (reply (P (PID img) (IID img) (k0 + j)%nat)) = false) ->
  terminal (reply (P (PID img) (IID img) (k0 + n)%nat)) = true ->
  poll fuel img k0 now i =
  mkPoll (expected P img k0 now n)
         (Some (arrival P img k0 now n,
                settle ErrImgInvalid (lastSeen P img k0 n i)
                       (reply (P (PID img) (IID img) (k0 + n)%nat)))).
Proof.
  induction n as [|n IH]; intros fuel img k0 now i Hf Hpre Hterm;
    (destruct fuel as [|fuel]; [lia|]); cbn [cloud.poll].
  - rewrite Nat.add_0_r in Hterm. cbn [expected arrival lastSeen].
    rewrite Nat.add_0_r.
    destruct (reply (P (PID img) (IID img) k0)) as [msg|st errs]; cbn in Hterm |- *.
    + reflexivity.
    + destruct (String.eqb_spec st "Ready") as [->|HR]; [reflexivity|].
      destruct (String.eqb_spec st "Invalid") as [->|HI]; [|discriminate].
      cbn. unfold invalidText.
      destruct (Join errs ";" =? "")%string; reflexivity.
  - pose proof (Hpre 0%nat ltac:(lia)) as H0. rewrite Nat.add_0_r in H0.
    cbn [expected arrival lastSeen].
    destruct (reply (P (PID img) (IID img) k0)) as [msg|st errs] eqn:E;
      cbn in H0; [discriminate|].
    apply orb_false_iff in H0 as [HR HI]. rewrite HR, HI.
    rewrite (IH fuel img (S k0)).
    + cbn [trace offer seen]. replace (S k0 + n)%nat with (k0 + S n)%nat by lia.
      reflexivity.
    + lia.
    + intros j Hj. replace (S k0 + j)%nat with (k0 + S j)%nat by lia.
      apply Hpre; lia.
    + replace (S k0 + n)%nat with (k0 + S n)%nat by lia. exact Hterm.
Qed.

(** ... and as long as no reply ends the loop, it makes one query per
    iteration and never sends. *)
Lemma poll_goes_on fuel : forall img k0 now i,
  (forall j, (j < fuel)%nat -> terminal (reply (P (PID img) (IID img) (k0 + j)%nat)) = false) ->
  offer (poll fuel img k0 now i) = None /\
  map number (queries (trace (poll fuel img k0 now i))) = map Some (seq k0 fuel).
Proof.
  induction fuel as [|fuel IH]; intros img k0 now i Hpre; cbn [cloud.poll].
  - split; reflexivity.
  - pose proof (Hpre 0%nat ltac:(lia)) as H0. rewrite Nat.add_0_r in H0.
    destruct (reply (P (PID img) (IID img) k0)) as [msg|st errs] eqn:E;
      cbn in H0; [discriminate|].
    apply orb_false_iff in H0 as [HR HI]. rewrite HR, HI.
    cbn [trace offer queries filter isQuery map number seq].
    edestruct (IH img (S k0)) as [H1 H2].
    + intros j Hj. replace (S k0 + j)%nat with (k0 + S j)%nat by lia.
      apply Hpre; lia.
    + split; [exact H1|]. f_equal. exact H2.
Qed.

(** Once a reply has ended the loop, no further query is made for the
    item, however long the goroutine is left to run. *)
Lemma poll_no_query_after_terminal n fuel img now t pid iid k :
  (forall j, (j < n)%nat -> terminal (reply (P (PID img) (IID img) j)) = false) ->
  terminal (reply (P (PID img) (IID img) n)) = true ->
  In (Query t pid iid k) (trace (poll fuel img 0 now img)) -> (k <= n)%nat.
Proof.
  intros Hpre Hterm Hin.
  assert (Hnum : In (Some k) (map number (queries (trace (poll fuel img 0 now img))))).
  { apply in_map_iff. exists (Query t pid iid k). split; [reflexivity|].
    apply filter_In. split; [exact Hin|reflexivity]. }
  destruct (Nat.lt_ge_cases n fuel) as [Hlt|Hge].
  - rewrite (poll_reaches n fuel img 0 now img Hlt) in Hnum by assumption.
    cbn [trace] in Hnum. rewrite queries_expected in Hnum.
    apply in_map_iff in Hnum as (m & [= ->] & Hm). apply in_seq in Hm. lia.
  - destruct (poll_goes_on fuel img 0%nat now img) as [_ Hq].
    { intros j Hj. apply Hpre. lia. }
    rewrite Hq in Hnum.
    apply in_map_iff in Hnum as (m & [= ->] & Hm). apply in_seq in Hm. lia.
Qed.

End PollRuns.

(** No reply among the first [fuel] ends the loop, or there is a first
    one that does. *)
Lemma first_terminal (P : Remote) (img : Image) (fuel : nat) :
  (forall j, (j < fuel)%nat -> terminal (reply (P (PID img) (IID img) j)) = false) \/
  (exists n, (n < fuel)%nat /\
     (forall j, (j < n)%nat -> terminal (reply (P (PID img) (IID img) j)) = false) /\
     terminal (reply (P (PID img) (IID img) n)) = true).
Proof.
  induction fuel as [|fuel [IH|(n & Hn & Hpre & Ht)]].
  - left; intros j Hj; lia.
  - destruct (terminal (reply (P (PID img) (IID img) fuel))) eqn:E.
    + right. exists fuel. repeat split; [lia | | exact E].
      intros j Hj; apply IH; exact Hj.
    + left. intros j Hj. destruct (Nat.eq_dec j fuel) as [->|]; [exact E|].
      apply IH; lia.
  - right. exists n. repeat split; [lia | exact Hpre | exact Ht].
Qed.

(** The guard of [checkState]. *)
Lemma checkState_guard ErrImgInvalid ErrClientTimeout P Timeout tie now img :
  Error img <> "" ->
  cloud.checkState ErrImgInvalid ErrClientTimeout P Timeout tie now img =
  mkChecked img now [].
Proof.
  intros H. unfold cloud.checkState.
  destruct (String.eqb_spec (Error img) ""); [contradiction|reflexivity].
Qed.

Lemma checkState_polls ErrImgInvalid ErrClientTimeout P Timeout tie now img :
  Error img = "" ->
  cloud.checkState ErrImgInvalid ErrClientTimeout P Timeout tie now img =
  let r := cloud.poll ErrImgInvalid P (rounds Timeout) img 0 now img in
  let o := race tie (fires now Timeout) (set_Error img ErrClientTimeout) (offer r) in
  mkChecked (snd o) (fst o) (trace r).
Proof.
  intros H. unfold cloud.checkState. rewrite H. cbn [String.eqb negb].
  cbv zeta. destruct (race _ _ _ _); reflexivity.
Qed.

(** ** The polling goroutine of the revision that queries before its loop *)

Lemma loop_never_ends (q : Reply) (fuel : nat) : forall now i,
  terminal q = false ->
  offer (cloud0.loop fuel q now i) = None /\
  queries (trace (cloud0.loop fuel q now i)) = [] /\
  List.length (trace (cloud0.loop fuel q now i)) = fuel.
Proof.
  induction fuel as [|fuel IH]; intros now i Hq; cbn [cloud0.loop].
  - repeat split.
  - destruct q as [msg|st errs]; cbn in Hq; [discriminate|].
    rewrite Hq. cbn [offer trace queries filter isQuery List.length].
    destruct (IH (now + Second) (set_State i st)) as (H1 & H2 & H3); [exact Hq|].
    repeat split; [exact H1 | exact H2 | now rewrite H3].
Qed.

Lemma loop_ends_at_once (q : Reply) (fuel : nat) now i :
  terminal q = true ->
  cloud0.loop (S fuel) q now i = mkPoll [] (Some (now, settle0 i q)).
Proof.
  intros Hq. cbn [cloud0.loop].
  destruct q as [msg|st errs]; cbn in Hq |- *; [reflexivity|].
  rewrite Hq. reflexivity.
Qed.

(** ** The claims on [checkState] *)

(** C1, the revision that queries before its loop: when the first reply
    does not end the polling, the goroutine has made its one and only query;
    whatever the number of iterations it sleeps and never queries again, and
    never sends, so a state that becomes [Ready] later is not seen.  (For the
    guarded revision the claim holds, see [poll_reaches], [poll_goes_on]
    and [poll_no_query_after_terminal].) *)
Theorem C1_queries_once_then_only_sleeps (P : Remote) (fuel : nat) (img : Image) (now : Z) :
  terminal (reply (P (PID img) (IID img) 0%nat)) = false ->
  offer (cloud0.poll P fuel img now) = None /\
  queries (trace (cloud0.poll P fuel img now)) = [Query now (PID img) (IID img) 0%nat] /\
  List.length (trace (cloud0.poll P fuel img now)) = S fuel.
Proof.
  intros H. unfold cloud0.poll. cbn [offer trace queries filter isQuery List.length].
  destruct (loop_never_ends (reply (P (PID img) (IID img) 0%nat)) fuel
              (now + Z.of_N (latency (P (PID img) (IID img) 0%nat))) img H)
    as (H1 & H2 & H3).
  repeat split; [exact H1 | | now rewrite H3].
  f_equal. exact H2.
Qed.

Lemma C1_queries_once_then_only_sleeps_witness :
  terminal (reply (pendingThenReady "p" "i" 0%nat)) = false /\
  offer (cloud0.poll pendingThenReady 5 (mkImage "p" "i" "Pending" "") 0) = None /\
  queries (trace (cloud0.poll pendingThenReady 5 (mkImage "p" "i" "Pending" "") 0))
    = [Query 0 "p" "i" 0%nat] /\
  List.length (trace (cloud0.poll pendingThenReady 5 (mkImage "p" "i" "Pending" "") 0)) = 6%nat.
Proof.
  split; [reflexivity|].
  apply (C1_queries_once_then_only_sleeps pendingThenReady 5 (mkImage "p" "i" "Pending" "") 0).
  reflexivity.
Defined.

(** The same item and service under both revisions, five seconds of
    timeout: the guarded revision queries twice and returns [Ready] after one
    second, the other one queries once and times out. *)
Example pendingThenReady_guarded :
  cloud.checkState "image: invalid" "client: timeout" pendingThenReady (5 * Second)
    true 0 (mkImage "p" "i" "Pending" "") =
  mkChecked (mkImage "p" "i" "Ready" "") Second
    [Query 0 "p" "i" 0%nat; Sleep 0; Query Second "p" "i" 1%nat].
Proof. reflexivity. Qed.

Example pendingThenReady_unguarded :
  cloud0.checkState "client: timeout" pendingThenReady (5 * Second)
    true 0 (mkImage "p" "i" "Pending" "") =
  mkChecked (mkImage "p" "i" "Pending" "client: timeout") (5 * Second)
    [Query 0 "p" "i" 0%nat; Sleep 0; Sleep Second; Sleep (2 * Second);
     Sleep (3 * Second); Sleep (4 * Second); Sleep (5 * Second)].
Proof. reflexivity. Qed.

(** C2, the revision that queries before its loop: it has no guard on
    [img.Error]; whatever the item carries, its goroutine starts with a
    query.  (The guarded revision returns the item unchanged, at once and
    without a query, see [checkState_guard].) *)
Theorem C2_unguarded_always_queries (ErrClientTimeout : string) (P : Remote)
    (Timeout : Duration) (tie : bool) (now : Z) (img : Image) :
  In (Query now (PID img) (IID img) 0%nat)
     (events (cloud0.checkState ErrClientTimeout P Timeout tie now img)).
Proof.
  unfold cloud0.checkState.
  destruct (race _ _ _ _) as [t r]. cbn [events cloud0.poll trace].
  left; reflexivity.
Qed.

(** An item that failed to register, under both revisions. *)
Example failed_item_guarded :
  cloud.checkState "image: invalid" "client: timeout" pendingThenReady (5 * Second)
    true 0 (mkImage "p" "i" "" "upload failed") =
  mkChecked (mkImage "p" "i" "" "upload failed") 0 [].
Proof. reflexivity. Qed.

Example failed_item_unguarded :
  cloud0.checkState "client: timeout" (fun _ _ _ => mkCall 0 (Answer "Ready" []))
    (5 * Second) true 0 (mkImage "p" "i" "" "upload failed") =
  mkChecked (mkImage "p" "i" "Ready" "upload failed") 0 [Query 0 "p" "i" 0%nat].
Proof. reflexivity. Qed.

Lemma offer_too_late ErrImgInvalid (P : Remote) (Timeout : Duration) now img :
  nothingInTime P Timeout now img ->
  forall t x,
    offer (cloud.poll ErrImgInvalid P (rounds Timeout) img 0 now img) = Some (t, x) ->
    fires now Timeout < t.
Proof.
  intros Hlate t x Hoff.
  destruct (first_terminal P img (rounds Timeout)) as [Hnone|(n & Hn & Hpre & Ht)].
  - destruct (poll_goes_on ErrImgInvalid P (rounds Timeout) img 0%nat now img Hnone)
      as [H _].
    rewrite H in Hoff; discriminate.
  - rewrite (poll_reaches ErrImgInvalid P n (rounds Timeout) img 0%nat now img Hn Hpre Ht)
      in Hoff.
    cbn [offer] in Hoff. injection Hoff as <- _. apply Hlate; assumption.
Qed.

Lemma guarded_times_out ErrImgInvalid ErrClientTimeout P Timeout tie now img :
  Error img = "" ->
  nothingInTime P Timeout now img ->
  let c := cloud.checkState ErrImgInvalid ErrClientTimeout P Timeout tie now img in
  ret c = set_Error img ErrClientTimeout /\ at_return c = fires now Timeout.
Proof.
  intros HE Hlate c. subst c. rewrite checkState_polls by exact HE. cbv zeta.
  rewrite race_timeout by (apply offer_too_late; exact Hlate).
  split; reflexivity.
Qed.

Lemma unguarded_times_out ErrClientTimeout P Timeout tie now img :
  nothingInTime P Timeout now img ->
  let c := cloud0.checkState ErrClientTimeout P Timeout tie now img in
  ret c = set_Error img ErrClientTimeout /\ at_return c = fires now Timeout.
Proof.
  intros Hlate c. subst c.
  unfold cloud0.checkState, cloud0.poll. cbn [offer trace].
  rewrite race_timeout; [split; reflexivity|].
  intros t x Hoff.
  destruct (terminal (reply (P (PID img) (IID img) 0%nat))) eqn:E.
  - unfold rounds in Hoff. rewrite loop_ends_at_once in Hoff by exact E.
    cbn [offer] in Hoff. injection Hoff as <- _.
    apply (Hlate 0%nat); [intros j Hj; lia | exact E].
  - destruct (loop_never_ends _ (rounds Timeout)
                (now + Z.of_N (latency (P (PID img) (IID img) 0%nat))) img E) as [H _].
    rewrite H in Hoff; discriminate.
Qed.

Lemma Digest_sends checkState ch j now img rest d :
  Done ch = None ->
  Result ch j = Some d ->
  let c := checkState (tie ch j) now img in
  let t := at_return c + Z.of_N d in
  shared.Digest checkState ch j now (img :: rest) =
  mkDigested ((t, ret c) :: sent (shared.Digest checkState ch (S j) t rest))
             (events c ++ did (shared.Digest checkState ch (S j) t rest))%list
             (exit (shared.Digest checkState ch (S j) t rest)).
Proof.
  intros HD HR. cbn [shared.Digest]. rewrite HD, HR. reflexivity.
Qed.

(** C3 as stated fails: there is no state [TimedOut].  An item that is
    [Pending] for ever is returned, when the timer fires after two seconds,
    with the state it came with, in both revisions: the timeout is carried by
    the field [Error] alone. *)
Lemma C3_timeout_leaves_the_state :
  let img := mkImage "p" "i" "Pending" "" in
  let c := cloud.checkState "image: invalid" "client: timeout" alwaysPending
             (2 * Second) true 0 img in
  let c0 := cloud0.checkState "client: timeout" alwaysPending (2 * Second) true 0 img in
  (forall n, terminal (reply (alwaysPending "p" "i" n)) = false) /\
  at_return c = 2 * Second /\
  ret c = mkImage "p" "i" "Pending" "client: timeout" /\
  State (ret c) <> "TimedOut" /\
  at_return c0 = 2 * Second /\
  ret c0 = mkImage "p" "i" "Pending" "client: timeout" /\
  State (ret c0) <> "TimedOut".
Proof. cbv zeta. repeat split; discriminate. Qed.

(** C3, amended: when the timer fires before a reply that ends the polling
    is back, [checkState] returns at that instant the item it was given with
    [Error] set to the text of [ErrClientTimeout] and nothing else changed:
    [State] is the one the item came with, whatever the goroutine may offer
    later.  So in the older revision for every item, and in the newer one
    for an item that came without error.  Only this item is touched: the
    worker whose value is received and whose [Done] is open goes on with the
    items that follow, each polled afresh, and does no more for this one
    than [checkState] did. *)
Theorem C3_timeout_finalizes_the_item (ErrImgInvalid ErrClientTimeout : string)
    (P : Remote) (Timeout : Duration) (coin : bool) (now : Z) (img : Image) :
  nothingInTime P Timeout now img ->
  let late := set_Error img ErrClientTimeout in
  let c := cloud.checkState ErrImgInvalid ErrClientTimeout P Timeout coin now img in
  let c0 := cloud0.checkState ErrClientTimeout P Timeout coin now img in
  (Error img = "" ->
   ret c = late /\ State (ret c) = State img /\ Error (ret c) = ErrClientTimeout /\
   at_return c = fires now Timeout) /\
  (ret c0 = late /\ State (ret c0) = State img /\ Error (ret c0) = ErrClientTimeout /\
   at_return c0 = fires now Timeout) /\
  (forall ch j rest d,
      Done ch = None -> Result ch j = Some d -> tie ch j = coin ->
      let t := fires now Timeout + Z.of_N d in
      (Error img = "" ->
       let r := cloud.Digest ErrImgInvalid ErrClientTimeout P Timeout ch j now (img :: rest) in
       let r' := cloud.Digest ErrImgInvalid ErrClientTimeout P Timeout ch (S j) t rest in
       sent r = (t, late) :: sent r' /\ did r = (events c ++ did r')%list /\
       exit r = exit r') /\
      (let r := cloud0.Digest ErrClientTimeout P Timeout ch j now (img :: rest) in
       let r' := cloud0.Digest ErrClientTimeout P Timeout ch (S j) t rest in
       sent r = (t, late) :: sent r' /\ did r = (events c0 ++ did r')%list /\
       exit r = exit r')).
Proof.
  intros Hlate late c c0.
  pose proof (unguarded_times_out ErrClientTimeout P Timeout coin now img Hlate) as Hc0.
  cbv zeta in Hc0. fold c0 late in Hc0. destruct Hc0 as [Hr0 Ht0].
  split; [|split].
  - intros HE.
    destruct (guarded_times_out ErrImgInvalid ErrClientTimeout P Timeout coin now img
                HE Hlate) as [Hr Ht].
    fold c late in Hr, Ht. rewrite Hr. repeat split. exact Ht.
  - rewrite Hr0. repeat split. exact Ht0.
  - intros ch j rest d HD HR Htie t. split.
    + intros HE r r'. subst r r'. unfold cloud.Digest.
      destruct (guarded_times_out ErrImgInvalid ErrClientTimeout P Timeout coin now img
                  HE Hlate) as [Hr Ht].
      fold c late in Hr, Ht.
      rewrite (Digest_sends _ ch j now img rest d HD HR). cbv zeta.
      rewrite Htie. fold c. rewrite Hr, Ht. cbn [sent did exit].
      repeat split.
    + intros r r'. subst r r'. unfold cloud0.Digest.
      rewrite (Digest_sends _ ch j now img rest d HD HR). cbv zeta.
      rewrite Htie. fold c0. rewrite Hr0, Ht0. cbn [sent did exit].
      repeat split.
Qed.

Lemma C3_timeout_finalizes_the_item_witness :
  nothingInTime alwaysPending (2 * Second) 0 (mkImage "p" "i" "Pending" "") /\
  ret (cloud.checkState "image: invalid" "client: timeout" alwaysPending (2 * Second)
         true 0 (mkImage "p" "i" "Pending" ""))
    = mkImage "p" "i" "Pending" "client: timeout" /\
  ret (cloud0.checkState "client: timeout" alwaysPending (2 * Second)
         true 0 (mkImage "p" "i" "Ready" "upload failed"))
    = mkImage "p" "i" "Ready" "client: timeout" /\
  at_return (cloud0.checkState "client: timeout" alwaysPending (2 * Second)
         true 0 (mkImage "p" "i" "Pending" "")) = 2 * Second.
Proof.
  assert (H : forall img, nothingInTime alwaysPending (2 * Second) 0 img).
  { intros img n _ Hn. discriminate Hn. }
  split; [apply H|].
  split; [|split].
  - exact (proj1 (proj1 (C3_timeout_finalizes_the_item "image: invalid" "client: timeout"
                     alwaysPending (2 * Second) true 0 (mkImage "p" "i" "Pending" "")
                     (H _)) eq_refl)).
  - exact (proj1 (proj1 (proj2 (C3_timeout_finalizes_the_item "image: invalid"
                     "client: timeout" alwaysPending (2 * Second) true 0
                     (mkImage "p" "i" "Ready" "upload failed") (H _))))).
  - exact (proj2 (proj2 (proj2 (proj1 (proj2 (C3_timeout_finalizes_the_item
                     "image: invalid" "client: timeout" alwaysPending (2 * Second) true 0
                     (mkImage "p" "i" "Pending" "") (H _))))))).
Defined.

(** C4 as stated fails: an item reported [Invalid] with an empty list of
    messages is not finalized with the joined list, which is the empty
    string, but with the text of [ErrImgInvalid]. *)
Lemma C4_invalid_without_message :
  let c := cloud.checkState "image: invalid" "client: timeout" invalidNoMessage
             (2 * Second) true 0 (mkImage "p" "i" "Pending" "") in
  reply (invalidNoMessage "p" "i" 0%nat) = Answer "Invalid" [] /\
  State (ret c) = "Invalid" /\
  Error (ret c) = "image: invalid" /\
  Error (ret c) <> Join [] ";".
Proof. cbv zeta. repeat split. discriminate. Qed.

(** C4, amended: an item without error whose first reply that ends the
    polling is [Invalid], back before the timer fires, is finalized at that
    instant with state [Invalid] and, as its error, the server's messages
    joined by [";"] when that text is not empty, and the text of
    [ErrImgInvalid] when it is. *)
Theorem C4_invalid_carries_the_messages (ErrImgInvalid ErrClientTimeout : string)
    (P : Remote) (Timeout : Duration) (tie : bool) (now : Z) (img : Image)
    (n : nat) (errs : list string) :
  Error img = "" ->
  (forall j, (j < n)%nat -> terminal (reply (P (PID img) (IID img) j)) = false) ->
  reply (P (PID img) (IID img) n) = Answer "Invalid" errs ->
  arrival P img 0 now n < fires now Timeout ->
  let c := cloud.checkState ErrImgInvalid ErrClientTimeout P Timeout tie now img in
  ret c = mkImage (PID img) (IID img) "Invalid"
            (if (Join errs ";" =? "")%string then ErrImgInvalid else Join errs ";") /\
  at_return c = arrival P img 0 now n.
Proof.
  intros HE Hpre Hrep Hin c. subst c.
  assert (Hn : (n < rounds Timeout)%nat).
  { pose proof (arrival_after P img 0 now n).
    pose proof (rounds_cover now Timeout).
    pose proof Second_pos. nia. }
  rewrite checkState_polls by exact HE. cbv zeta.
  rewrite (poll_reaches ErrImgInvalid P n (rounds Timeout) img 0%nat now img Hn Hpre)
    by (cbn [Nat.add]; rewrite Hrep; reflexivity).
  cbn [offer Nat.add]. rewrite race_offer by exact Hin. cbn [fst snd].
  rewrite Hrep. cbn [settle String.eqb Ascii.eqb Bool.eqb].
  destruct (lastSeen_fields P img 0 n img) as (H1 & H2 & _).
  rewrite H1, H2. split; reflexivity.
Qed.

Lemma C4_invalid_carries_the_messages_witness :
  Error (mkImage "p" "i" "Pending" "") = "" /\
  reply (invalidCorrupt "p" "i" 0%nat) = Answer "Invalid" ["corrupt"] /\
  arrival invalidCorrupt (mkImage "p" "i" "Pending" "") 0 0 0 < fires 0 (2 * Second) /\
  ret (cloud.checkState "image: invalid" "client: timeout" invalidCorrupt (2 * Second)
         true 0 (mkImage "p" "i" "Pending" ""))
    = mkImage "p" "i" "Invalid" "corrupt".
Proof.
  split; [reflexivity|]. split; [reflexivity|]. split; [reflexivity|].
  refine (proj1 (C4_invalid_carries_the_messages "image: invalid" "client: timeout"
                   invalidCorrupt (2 * Second) true 0 (mkImage "p" "i" "Pending" "")
                   0 ["corrupt"] eq_refl _ eq_refl eq_refl)).
  intros j Hj. exfalso. exact (Nat.nlt_0_r j Hj).
Defined.

(** C9 as stated fails: on the item of the specification's scenario,
    reported [Invalid] with the message ["corrupt"], the guarded revision
    records the message and the other one leaves [Error] empty. *)
Lemma C9_revisions_differ_on_invalid :
  ~ (forall (ErrImgInvalid ErrClientTimeout : string) (P : Remote)
            (Timeout : Duration) (tie : bool) (now : Z) (img : Image),
        ret (cloud.checkState ErrImgInvalid ErrClientTimeout P Timeout tie now img) =
        ret (cloud0.checkState ErrClientTimeout P Timeout tie now img)).
Proof.
  intros H.
  specialize (H "image: invalid" "client: timeout" invalidCorrupt (2 * Second) true 0
                (mkImage "p" "i" "Pending" "")).
  vm_compute in H. discriminate H.
Qed.

(** C9, amended: on an item without error both revisions return the
    same item at the same instant when the first query fails or comes back
    [Ready], and when no reply that ends the polling is back before the
    timer fires. *)
Theorem C9_revisions_agree_on_first_reply (ErrImgInvalid ErrClientTimeout : string)
    (P : Remote) (Timeout : Duration) (tie : bool) (now : Z) (img : Image) :
  Error img = "" ->
  match reply (P (PID img) (IID img) 0%nat) with
  | Failed _ => True
  | Answer st _ => st = "Ready"
  end \/ nothingInTime P Timeout now img ->
  let c := cloud.checkState ErrImgInvalid ErrClientTimeout P Timeout tie now img in
  let c0 := cloud0.checkState ErrClientTimeout P Timeout tie now img in
  ret c = ret c0 /\ at_return c = at_return c0.
Proof.
  intros HE [Hrep|Hlate] c c0; subst c c0.
  - rewrite checkState_polls by exact HE. cbv zeta.
    unfold cloud0.checkState, cloud0.poll, rounds. cbn [cloud.poll cloud0.loop].
    destruct (reply (P (PID img) (IID img) 0%nat)) as [msg|st errs].
    + cbn [offer trace]. destruct (race _ _ _ _); split; reflexivity.
    + subst st. cbn [String.eqb Ascii.eqb Bool.eqb orb offer trace].
      destruct (race _ _ _ _); split; reflexivity.
  - destruct (guarded_times_out ErrImgInvalid ErrClientTimeout P Timeout tie now img
                HE Hlate) as [H1 H2].
    destruct (unguarded_times_out ErrClientTimeout P Timeout tie now img Hlate)
      as [H3 H4].
    cbv zeta in H1, H2, H3, H4. rewrite H1, H2, H3, H4. split; reflexivity.
Qed.

Lemma C9_revisions_agree_on_first_reply_witness :
  Error (mkImage "p" "i" "Pending" "") = "" /\
  reply (readyAtOnce "p" "i" 0%nat) = Answer "Ready" [] /\
  ret (cloud.checkState "image: invalid" "client: timeout" readyAtOnce (2 * Second) true 0
         (mkImage "p" "i" "Pending" "")) =
  ret (cloud0.checkState "client: timeout" readyAtOnce (2 * Second) true 0
         (mkImage "p" "i" "Pending" "")).
Proof.
  split; [reflexivity|]. split; [reflexivity|].
  exact (proj1 (C9_revisions_agree_on_first_reply "image: invalid" "client: timeout"
                  readyAtOnce (2 * Second) true 0 (mkImage "p" "i" "Pending" "")
                  eq_refl (or_introl eq_refl))).
Defined.

(** ** The pool: [Run] *)

Lemma startDigesters_all (fuel : nat) : forall i n,
  fuel = Z.to_nat (n - i) ->
  shared.startDigesters fuel i n = repeat Digester fuel.
Proof.
  induction fuel as [|fuel IH]; intros i n H; cbn [shared.startDigesters repeat].
  - reflexivity.
  - destruct (Z.ltb_spec i n); [|lia].
    f_equal. apply IH. lia.
Qed.

Lemma filter_isDigester_repeat (k : nat) :
  filter isDigester (repeat Digester k ++ [Closer]) = repeat Digester k.
Proof.
  induction k as [|k IH]; cbn; [reflexivity|]. now rewrite IH.
Qed.

Lemma Run_spawns (NumCPU n : Z) :
  let m := if n <=? 0 then NumCPU else n in
  shared.Run NumCPU n = mkStarted m (repeat Digester (Z.to_nat m) ++ [Closer]) m.
Proof.
  cbv zeta. unfold shared.Run.
  rewrite startDigesters_all by (f_equal; lia). reflexivity.
Qed.

(** C5: [Run n] starts [n] digesters when [n] is positive and as many as
    there are CPU cores when it is not, one closer besides, and returns the
    number of digesters it started; so in both revisions. *)
Theorem C5_Run_starts_n_workers (NumCPU n : Z) :
  0 < NumCPU ->
  let s := cloud.Run NumCPU n in
  let workers := filter isDigester (spawned s) in
  (0 < n -> Z.of_nat (List.length workers) = n) /\
  (n <= 0 -> Z.of_nat (List.length workers) = NumCPU) /\
  returned s = Z.of_nat (List.length workers) /\
  wg s = returned s /\
  filter (fun g => negb (isDigester g)) (spawned s) = [Closer] /\
  cloud0.Run NumCPU n = s.
Proof.
  intros Hcpu s workers. subst workers s. unfold cloud0.Run, cloud.Run.
  rewrite Run_spawns. cbv zeta. cbn [spawned returned wg].
  rewrite filter_isDigester_repeat, repeat_length.
  assert (Hc : forall k, filter (fun g => negb (isDigester g))
                           (repeat Digester k ++ [Closer]) = [Closer]).
  { induction k as [|k IH]; cbn; [reflexivity|exact IH]. }
  rewrite Hc.
  destruct (Z.leb_spec n 0); repeat split; intros; lia.
Qed.

Lemma C5_Run_starts_n_workers_witness :
  0 < 8 /\
  Z.of_nat (List.length (filter isDigester (spawned (cloud.Run 8 3)))) = 3 /\
  Z.of_nat (List.length (filter isDigester (spawned (cloud.Run 8 (-1))))) = 8 /\
  returned (cloud.Run 8 0) = 8.
Proof.
  split; [reflexivity|].
  split; [exact (proj1 (C5_Run_starts_n_workers 8 3 eq_refl) eq_refl)|].
  split; [apply (proj1 (proj2 (C5_Run_starts_n_workers 8 (-1) eq_refl))); discriminate|].
  reflexivity.
Defined.

(** ** The pool: when [Result] is closed *)

Lemma pending_app l1 w l2 :
  pending (l1 ++ w :: l2) =
  (pending l1 + (if isGone w then 0 else 1) + pending l2)%nat.
Proof.
  unfold pending. rewrite filter_app, length_app. cbn [filter].
  destruct (isGone w); cbn [negb List.length]; lia.
Qed.

Lemma pending_cons w l :
  pending (w :: l) = ((if isGone w then 0 else 1) + pending l)%nat.
Proof. exact (pending_app [] w l). Qed.

Lemma pending_zero l : pending l = 0%nat <-> Forall (fun w => w = Gone) l.
Proof.
  induction l as [|w l IH].
  - split; [constructor|reflexivity].
  - rewrite pending_cons. split.
    + intros H. destruct w; cbn [isGone] in H; try lia.
      constructor; [reflexivity|]. apply IH. lia.
    + intros H. inversion H as [|? ? Hw Hl]; subst. cbn [isGone].
      apply IH in Hl. lia.
Qed.

Lemma not_allGone l1 w l2 :
  w <> Gone -> ~ Forall (fun w => w = Gone) (l1 ++ w :: l2).
Proof.
  intros Hw H. rewrite Forall_forall in H.
  apply Hw, H, in_elt.
Qed.

Lemma sound_boot (NumCPU n : Z) :
  0 < NumCPU ->
  sound (Z.to_nat (returned (cloud.Run NumCPU n))) (boot (cloud.Run NumCPU n)).
Proof.
  intros Hcpu. unfold cloud.Run. rewrite Run_spawns. cbv zeta.
  unfold boot. cbn [spawned wg returned].
  rewrite filter_isDigester_repeat.
  set (m := if n <=? 0 then NumCPU else n).
  assert (Hm : 0 < m) by (subst m; destruct (Z.leb_spec n 0); lia).
  assert (Hp : forall k, pending (map (fun _ : Goroutine => InDigest) (repeat Digester k)) = k).
  { induction k as [|k IH]; [reflexivity|].
    cbn [repeat map]. rewrite pending_cons, IH. reflexivity. }
  constructor; cbn [digesters counter closer closes].
  - now rewrite length_map, repeat_length.
  - rewrite Hp. lia.
  - reflexivity.
Qed.

Lemma sound_step N p q : sound N p -> step p q -> sound N q.
Proof.
  intros [Hsize Hcount Hcl] Hst.
  destruct Hst; cbn [digesters counter closer closes] in *; unfold allGone in *;
    cbn [digesters] in *.
  - constructor; assumption.
  - constructor; assumption.
  - constructor; cbn [digesters counter closer closes]; unfold allGone; cbn [digesters].
    + rewrite length_app in *. exact Hsize.
    + rewrite pending_app in *. exact Hcount.
    + destruct k; [exact Hcl| |];
        destruct Hcl as [_ Hg]; exfalso; revert Hg; apply not_allGone; discriminate.
  - constructor; cbn [digesters counter closer closes]; unfold allGone; cbn [digesters].
    + rewrite length_app in *. exact Hsize.
    + rewrite pending_app in *. cbn [isGone] in *. lia.
    + destruct k; [exact Hcl| |];
        destruct Hcl as [_ Hg]; exfalso; revert Hg; apply not_allGone; discriminate.
  - constructor; cbn [digesters counter closer closes]; unfold allGone; cbn [digesters];
      try assumption.
    split; [exact Hcl|]. apply pending_zero. lia.
  - constructor; cbn [digesters counter closer closes]; unfold allGone; cbn [digesters];
      try assumption.
    destruct Hcl as [-> Hg]. split; [reflexivity|exact Hg].
Qed.

Lemma sound_steps N p q : sound N p -> steps p q -> sound N q.
Proof.
  intros Hp Hs. induction Hs as [p|p q r _ IH Hst]; [exact Hp|].
  eapply sound_step; [apply IH; exact Hp | exact Hst].
Qed.

Lemma steps_trans p q r : steps p q -> steps q r -> steps p r.
Proof.
  intros Hpq Hqr. induction Hqr as [q|q r s _ IH Hst]; [exact Hpq|].
  eapply steps_then; [apply IH; exact Hpq | exact Hst].
Qed.

Lemma steps_one p q : step p q -> steps p q.
Proof. intros H. eapply steps_then; [apply steps_refl | exact H]. Qed.

(** Every digester can return from [Digest] and call [wg.Done()]. *)
Lemma drain (l : list DigesterPc) : forall g c k n e d,
  steps (mkPool (g ++ l) c k n e d)
        (mkPool (g ++ repeat Gone (List.length l)) (c - Z.of_nat (pending l)) k n e d).
Proof.
  induction l as [|w l IH]; intros g c k n e d.
  - cbn. replace (c - 0) with c by lia. apply steps_refl.
  - rewrite pending_cons. cbn [List.length repeat].
    assert (Hw : steps (mkPool (g ++ w :: l) c k n e d)
                       (mkPool (g ++ Gone :: l)
                               (c - Z.of_nat (if isGone w then 0 else 1)) k n e d)).
    { destruct w; cbn [isGone].
      - eapply steps_then; [apply steps_one, step_return|]. apply step_wg_done.
      - apply steps_one, step_wg_done.
      - replace (c - Z.of_nat 0) with c by lia. apply steps_refl. }
    eapply steps_trans; [exact Hw|].
    specialize (IH (g ++ [Gone]) (c - Z.of_nat (if isGone w then 0 else 1)) k n e d).
    rewrite <- !app_assoc in IH. cbn [app] in IH.
    replace (c - Z.of_nat ((if isGone w then 0 else 1) + pending l))
      with (c - Z.of_nat (if isGone w then 0 else 1) - Z.of_nat (pending l)) by lia.
    exact IH.
Qed.

Lemma halted_final l c n e d :
  Forall (fun w => w = Gone) l -> halted (mkPool l c CloserGone n e d).
Proof.
  intros Hg q Hst. inversion Hst; subst;
    match goal with
    | H : Forall _ (_ ++ _ :: _) |- _ => revert H; apply not_allGone; discriminate
    end.
Qed.

Lemma Forall_repeat_Gone k : Forall (fun w => w = Gone) (repeat Gone k).
Proof. induction k; cbn; constructor; auto. Qed.

(** A sound pool can always run to its end, where [Result] is closed. *)
Lemma sound_can_finish N p : sound N p -> exists q, steps p q /\ halted q.
Proof.
  intros [Hsize Hcount Hcl]. destruct p as [l c k n e d].
  cbn [digesters counter closer closes] in *. unfold allGone in Hcl; cbn [digesters] in Hcl.
  destruct k.
  - exists (mkPool (repeat Gone (List.length l)) 0 CloserGone (S n) e d). split.
    + eapply steps_then; [eapply steps_then|].
      * subst c. pose proof (drain l [] (Z.of_nat (pending l)) AtWait n e d) as H.
        cbn [app] in H. rewrite Z.sub_diag in H. exact H.
      * apply step_wait.
      * apply step_close.
    + apply halted_final, Forall_repeat_Gone.
  - exists (mkPool l c CloserGone (S n) e d). split.
    + apply steps_one, step_close.
    + apply halted_final, Hcl.
  - exists (mkPool l c CloserGone n e d). split; [apply steps_refl|].
    apply halted_final, Hcl.
Qed.





(** ** The worker and [Done] *)

Lemma race_bounds tie now deadline onT o :
  now <= deadline ->
  (forall t x, o = Some (t, x) -> now <= t) ->
  now <= fst (race tie deadline onT o) <= deadline.
Proof.
  intros Hd Ho. destruct o as [[t x]|]; cbn [race]; [|cbn; lia].
  specialize (Ho t x eq_refl).
  destruct (Z.ltb_spec t deadline); [cbn; lia|].
  destruct (Z.ltb_spec deadline t); [cbn; lia|].
  destruct tie; cbn; lia.
Qed.

(** [checkState] returns, and no later than the timer fires. *)
Lemma checkState_returns_in_time ErrImgInvalid ErrClientTimeout P Timeout tie now img :
  now <= at_return (cloud.checkState ErrImgInvalid ErrClientTimeout P Timeout tie now img)
      <= fires now Timeout.
Proof.
  assert (Hf : now <= fires now Timeout) by (unfold fires; lia).
  destruct (String.eqb_spec (Error img) "") as [HE|HE].
  - rewrite checkState_polls by exact HE. cbv zeta. cbn [at_return].
    apply race_bounds; [exact Hf|].
    intros t x H. eapply poll_offer_after; exact H.
  - rewrite checkState_guard by exact HE. cbn [at_return]. lia.
Qed.






(** ** Package service: [Check] and [CheckPID] *)

Section CheckFacts.

Import service.

Variable World : Type.
Variable log_Printf : LogFn World.

Lemma range_outcome logger cs : forall w,
  (exists w', passes logger cs w w' /\ range World logger cs w = (None, w')) \/
  (exists pre c post w1 w2 err,
      cs = pre ++ c :: post /\
      passes logger pre w w1 /\
      c logger w1 = (Some err, w2) /\
      range World logger cs w = (Some err, w2)).
Proof.
  induction cs as [|c cs IH]; intros w.
  - left. exists w. split; [constructor|reflexivity].
  - cbn [range]. destruct (c logger w) as [[err|] w1] eqn:E.
    + right. exists [], c, cs, w, w1, err.
      repeat split; [constructor | exact E].
    + destruct (IH w1) as [(w' & Hp & Hr)|(pre & c' & post & w2 & w3 & err & -> & Hp & Hc & Hr)].
      * left. exists w'. split; [econstructor; eassumption | exact Hr].
      * right. exists (c :: pre), c', post, w2, w3, err.
        repeat split; [econstructor; eassumption | exact Hc | exact Hr].
Qed.

Lemma range_passes logger cs : forall w w',
  passes logger cs w w' -> range World logger cs w = (None, w').
Proof.
  intros w w' H. induction H as [w|c cs w w1 w2 Hc _ IH]; [reflexivity|].
  cbn [range]. rewrite Hc. exact IH.
Qed.

(** C6: [Check] runs the checkers in the order given, each with the
    logger passed in, or with [log.Printf] when [nil] is passed.  Either all
    of them pass and [Check] returns [nil]; or one fails after all those
    before it have passed, and [Check] returns its error and leaves the world
    as that checker left it, whatever the checkers after it are.  It returns
    [nil] exactly when all pass. *)
Theorem C6_Check_stops_at_first_failure (logger : option (LogFn World))
    (cs : list (CheckFn World)) (w : World) :
  ((exists w', passes (given log_Printf logger) cs w w' /\
               Check World log_Printf logger cs w = (None, w')) \/
   (exists pre c post w1 w2 err,
       cs = pre ++ c :: post /\
       passes (given log_Printf logger) pre w w1 /\
       c (given log_Printf logger) w1 = (Some err, w2) /\
       Check World log_Printf logger cs w = (Some err, w2) /\
       forall post', Check World log_Printf logger (pre ++ c :: post') w = (Some err, w2))) /\
  (fst (Check World log_Printf logger cs w) = None <->
   exists w', passes (given log_Printf logger) cs w w').
Proof.
  unfold Check. fold (given log_Printf logger). split.
  - destruct (range_outcome (given log_Printf logger) cs w)
      as [H|(pre & c & post & w1 & w2 & err & Hcs & Hp & Hc & Hr)].
    + left. exact H.
    + right. exists pre, c, post, w1, w2, err.
      repeat split; try assumption.
      intros post'. clear Hr Hcs. induction Hp as [w|c0 cs0 w w0 w1 Hc0 _ IH].
      * cbn [app range]. rewrite Hc. reflexivity.
      * cbn [app range]. rewrite Hc0. apply IH. exact Hc.
  - split.
    + intros Hn. destruct (range_outcome (given log_Printf logger) cs w)
        as [(w' & Hp & _)|(pre & c & post & w1 & w2 & err & _ & _ & _ & Hr)].
      * exists w'. exact Hp.
      * rewrite Hr in Hn. discriminate Hn.
    + intros (w' & Hp). rewrite (range_passes _ _ _ _ Hp). reflexivity.
Qed.

Variable SearchProjectID : string -> bool -> World -> (Project + errors.error) * World.

(** C10: for a project that is found, [CheckPID] with kind ["meta"] fails
    with [ErrProjNotFound] exactly when the project is imported, with kind
    ["model"] exactly when it is not, and with any other kind, ["image"] and
    the empty string among them, it passes without looking at the project
    and without logging. *)
Theorem C10_CheckPID_kinds (kind pid : string) (logger : LogFn World)
    (w w1 : World) (p : Project) :
  SearchProjectID pid true w = (inl p, w1) ->
  let notFound := (Some errors.ErrProjNotFound,
                   logger "%q project could nont be found!" [kind] w1) in
  (kind = "meta" ->
   CheckPID World SearchProjectID kind pid logger w =
     (if IsImported p then notFound else (None, w1))) /\
  (kind = "model" ->
   CheckPID World SearchProjectID kind pid logger w =
     (if IsImported p then (None, w1) else notFound)) /\
  (kind <> "meta" -> kind <> "model" ->
   CheckPID World SearchProjectID kind pid logger w = (None, w1)).
Proof.
  intros Hfound notFound. subst notFound. unfold CheckPID. rewrite Hfound.
  repeat split.
  - intros ->. cbn. destruct (IsImported p); reflexivity.
  - intros ->. cbn. destruct (IsImported p); reflexivity.
  - intros Hmeta Hmodel.
    destruct (String.eqb_spec kind "image"); [reflexivity|].
    destruct (String.eqb_spec kind "meta"); [contradiction|].
    destruct (String.eqb_spec kind "model"); [contradiction|].
    reflexivity.
Qed.

End CheckFacts.

Example Check_runs_in_order_and_stops :
  service.Check Lines printLine None
    [passing "server"; failing "project" errors.ErrProjNotFound; passing "file"] [] =
  (Some errors.ErrProjNotFound, [("fail %q", ["project"]); ("pass %q", ["server"])]).
Proof. reflexivity. Qed.

Lemma C10_CheckPID_kinds_witness :
  alwaysFound true "p1" true [] = (inl (service.mkProject "p1" "" true "" "" 0 ""), []) /\
  service.CheckPID Lines (alwaysFound true) "meta" "p1" printLine [] =
    (Some errors.ErrProjNotFound, [("%q project could nont be found!", ["meta"])]) /\
  service.CheckPID Lines (alwaysFound true) "model" "p1" printLine [] = (None, []) /\
  service.CheckPID Lines (alwaysFound true) "" "p1" printLine [] = (None, []).
Proof.
  split; [reflexivity|].
  split; [exact (proj1 (C10_CheckPID_kinds Lines (alwaysFound true) "meta" "p1" printLine
                          [] [] (service.mkProject "p1" "" true "" "" 0 "") eq_refl) eq_refl)|].
  split; [exact (proj1 (proj2 (C10_CheckPID_kinds Lines (alwaysFound true) "model" "p1"
                          printLine [] [] (service.mkProject "p1" "" true "" "" 0 "") eq_refl)) eq_refl)|].
  apply (proj2 (proj2 (C10_CheckPID_kinds Lines (alwaysFound true) "" "p1"
                          printLine [] [] (service.mkProject "p1" "" true "" "" 0 "") eq_refl)));
    discriminate.
Defined.

(* ================================================================== *)
(** * Further properties of package cloud *)

Lemma race_cases tie deadline onT o t x :
  race tie deadline onT o = (t, x) ->
  (t = deadline /\ x = onT) \/ o = Some (t, x).
Proof.
  destruct o as [[t' x']|]; cbn [race].
  - destruct (t' <? deadline); [intros [= <- <-]; right; reflexivity|].
    destruct (deadline <? t'); [intros [= <- <-]; left; split; reflexivity|].
    destruct tie; intros [= <- <-]; [right|left; split]; reflexivity.
  - intros [= <- <-]. left; split; reflexivity.
Qed.

Lemma poll_offer_ids ErrImgInvalid P fuel img : forall k now i t x,
  offer (cloud.poll ErrImgInvalid P fuel img k now i) = Some (t, x) ->
  PID x = PID i /\ IID x = IID i.
Proof.
  induction fuel as [|fuel IH]; intros k now i t x; cbn [cloud.poll].
  - discriminate.
  - destruct (reply (P (PID img) (IID img) k)) as [msg|st errs].
    + cbn [offer]. intros [= _ <-]. split; reflexivity.
    + destruct (st =? "Ready")%string; [cbn [offer]; intros [= _ <-]; split; reflexivity|].
      destruct (st =? "Invalid")%string.
      * cbn [offer]. intros [= _ <-]. cbn [set_Error Error].
        destruct (Join errs ";" =? "")%string; split; reflexivity.
      * cbn [offer]. intros H. apply IH in H. cbn in H. exact H.
Qed.

Lemma loop_offer fuel q : forall now i t x,
  offer (cloud0.loop fuel q now i) = Some (t, x) ->
  now <= t /\ PID x = PID i /\ IID x = IID i.
Proof.
  induction fuel as [|fuel IH]; intros now i t x; cbn [cloud0.loop].
  - discriminate.
  - destruct q as [msg|st errs].
    + cbn [offer]. intros [= <- <-]. repeat split; lia.
    + destruct ((st =? "Ready")%string || (st =? "Invalid")%string).
      * cbn [offer]. intros [= <- <-]. repeat split; lia.
      * cbn [offer]. intros H. apply IH in H. cbn in H.
        pose proof Second_pos. repeat split; try apply H; lia.
Qed.

(** What comes back from the guarded goroutine without an error is
    [Ready]. *)
Lemma poll_offer_clean ErrImgInvalid P fuel img : forall k now i t x,
  ErrImgInvalid <> "" ->
  (forall k msg, reply (P (PID img) (IID img) k) = Failed msg -> msg <> "") ->
  offer (cloud.poll ErrImgInvalid P fuel img k now i) = Some (t, x) ->
  Error x = "" -> State x = "Ready".
Proof.
  induction fuel as [|fuel IH]; intros k now i t x HE HF; cbn [cloud.poll].
  - discriminate.
  - destruct (reply (P (PID img) (IID img) k)) as [msg|st errs] eqn:E.
    + cbn [offer]. intros [= _ <-]. cbn. intros ->. exfalso. exact (HF k "" E eq_refl).
    + destruct (String.eqb_spec st "Ready") as [->|_];
        [cbn [offer]; intros [= _ <-]; reflexivity|].
      destruct (st =? "Invalid")%string.
      * cbn [offer]. intros [= _ <-]. cbn [set_Error Error].
        destruct (String.eqb_spec (Join errs ";") ""); cbn [set_Error Error];
          intros H; exfalso; auto.
      * cbn [offer]. intros H. eapply IH; eassumption.
Qed.

Lemma checkState0_polls ErrClientTimeout P Timeout tie now img :
  cloud0.checkState ErrClientTimeout P Timeout tie now img =
  let r := cloud0.poll P (rounds Timeout) img now in
  let o := race tie (fires now Timeout) (set_Error img ErrClientTimeout) (offer r) in
  mkChecked (snd o) (fst o) (trace r).
Proof.
  unfold cloud0.checkState. cbv zeta. destruct (race _ _ _ _); reflexivity.
Qed.

Lemma checkState0_returns_in_time ErrClientTimeout P Timeout tie now img :
  now <= at_return (cloud0.checkState ErrClientTimeout P Timeout tie now img)
      <= fires now Timeout.
Proof.
  rewrite checkState0_polls. cbv zeta. cbn [at_return].
  apply race_bounds; [unfold fires; lia|].
  unfold cloud0.poll. cbn [offer]. intros t x H.
  apply loop_offer in H. lia.
Qed.

Lemma checkState_ids ErrImgInvalid ErrClientTimeout P Timeout tie now img :
  ident (ret (cloud.checkState ErrImgInvalid ErrClientTimeout P Timeout tie now img))
  = ident img.
Proof.
  unfold ident.
  destruct (String.eqb_spec (Error img) "") as [HE|HE].
  - rewrite checkState_polls by exact HE. cbv zeta. cbn [ret].
    destruct (race _ _ _ _) as [t x] eqn:E. cbn [snd].
    apply race_cases in E as [[_ ->]|E]; [reflexivity|].
    apply poll_offer_ids in E as [-> ->]. reflexivity.
  - rewrite checkState_guard by exact HE. reflexivity.
Qed.

Lemma checkState0_ids ErrClientTimeout P Timeout tie now img :
  ident (ret (cloud0.checkState ErrClientTimeout P Timeout tie now img)) = ident img.
Proof.
  unfold ident. rewrite checkState0_polls. cbv zeta. cbn [ret].
  destruct (race _ _ _ _) as [t x] eqn:E. cbn [snd].
  apply race_cases in E as [[_ ->]|E]; [reflexivity|].
  unfold cloud0.poll in E. cbn [offer] in E.
  apply loop_offer in E as (_ & -> & ->). reflexivity.
Qed.

(** X1: [checkState] comes back, in both revisions, no earlier than it is
    called and no later than its timer fires. *)
Theorem X1_checkState_returns_within_timeout (ErrImgInvalid ErrClientTimeout : string)
    (P : Remote) (Timeout : Duration) (tie : bool) (now : Z) (img : Image) :
  now <= at_return (cloud.checkState ErrImgInvalid ErrClientTimeout P Timeout tie now img)
      <= fires now Timeout /\
  now <= at_return (cloud0.checkState ErrClientTimeout P Timeout tie now img)
      <= fires now Timeout.
Proof.
  split; [apply checkState_returns_in_time | apply checkState0_returns_in_time].
Qed.

(** X2: the item [checkState] returns is the item it was given: in both
    revisions [PID] and [IID] are those of the input, whatever the service
    answers and whether or not the timer fires. *)
Theorem X2_checkState_keeps_the_identity (ErrImgInvalid ErrClientTimeout : string)
    (P : Remote) (Timeout : Duration) (tie : bool) (now : Z) (img : Image) :
  let c := cloud.checkState ErrImgInvalid ErrClientTimeout P Timeout tie now img in
  let c0 := cloud0.checkState ErrClientTimeout P Timeout tie now img in
  (PID (ret c) = PID img /\ IID (ret c) = IID img) /\
  (PID (ret c0) = PID img /\ IID (ret c0) = IID img).
Proof.
  cbv zeta.
  pose proof (checkState_ids ErrImgInvalid ErrClientTimeout P Timeout tie now img) as H.
  pose proof (checkState0_ids ErrClientTimeout P Timeout tie now img) as H0.
  unfold ident in H, H0. injection H as H1 H2. injection H0 as H3 H4.
  repeat split; assumption.
Qed.

(** X3: in the guarded revision an item comes back without error only as
    [Ready], provided the two error constants and the messages of failed
    queries are not empty. *)
Theorem X3_no_error_means_Ready (ErrImgInvalid ErrClientTimeout : string)
    (P : Remote) (Timeout : Duration) (tie : bool) (now : Z) (img : Image) :
  ErrImgInvalid <> "" ->
  ErrClientTimeout <> "" ->
  (forall k msg, reply (P (PID img) (IID img) k) = Failed msg -> msg <> "") ->
  let c := cloud.checkState ErrImgInvalid ErrClientTimeout P Timeout tie now img in
  Error (ret c) = "" -> State (ret c) = "Ready".
Proof.
  intros HI HT HF c. subst c.
  destruct (String.eqb_spec (Error img) "") as [HE|HE].
  - rewrite checkState_polls by exact HE. cbv zeta. cbn [ret].
    destruct (race _ _ _ _) as [t x] eqn:E. cbn [snd].
    apply race_cases in E as [[_ ->]|E].
    + cbn. intros H; contradiction.
    + exact (poll_offer_clean ErrImgInvalid P _ img _ _ _ _ _ HI HF E).
  - rewrite checkState_guard by exact HE. cbn [ret]. intros H; contradiction.
Qed.

Lemma X3_no_error_means_Ready_witness :
  "image: invalid" <> "" /\ "client: timeout" <> "" /\
  State (ret (cloud.checkState "image: invalid" "client: timeout" pendingThenReady
                (5 * Second) true 0 (mkImage "p" "i" "Pending" ""))) = "Ready".
Proof.
  split; [discriminate|]. split; [discriminate|].
  apply (X3_no_error_means_Ready "image: invalid" "client: timeout" pendingThenReady
           (5 * Second) true 0 (mkImage "p" "i" "Pending" "")).
  - discriminate.
  - discriminate.
  - intros [|k] msg H; discriminate H.
  - reflexivity.
Defined.

(** The queries of the expected trace: their item, number and instant. *)
Lemma expected_queries_from P img n : forall k0 now t pid iid k,
  In (Query t pid iid k) (expected P img k0 now n) ->
  pid = PID img /\ iid = IID img /\ (k0 <= k <= k0 + n)%nat /\
  t = match (k - k0)%nat with
      | O => now
      | S d => arrival P img k0 now d + Second
      end.
Proof.
  induction n as [|n IH]; intros k0 now t pid iid k; cbn [expected].
  - intros [[= <- <- <- <-]|[]]. rewrite Nat.sub_diag. repeat split; lia.
  - intros [[= <- <- <- <-]|[H|H]];
      [rewrite Nat.sub_diag; repeat split; lia | discriminate H |].
    apply IH in H as (-> & -> & Hk & ->).
    repeat split; try lia.
    replace (k - k0)%nat with (S (k - S k0)) by lia.
    destruct (k - S k0)%nat as [|d] eqn:E; cbn [arrival]; reflexivity.
Qed.

Lemma expected_queries P img n now t pid iid k :
  In (Query t pid iid k) (expected P img 0 now n) ->
  pid = PID img /\ iid = IID img /\ (k <= n)%nat /\
  t = match k with
      | O => now
      | S k' => arrival P img 0 now k' + Second
      end.
Proof.
  intros H. apply expected_queries_from in H as (-> & -> & Hk & ->).
  rewrite Nat.sub_0_r. repeat split; lia.
Qed.

(** X4: the polling of the guarded revision.  When the reply to query [n]
    is the first that ends the polling, the goroutine, however long it is
    left to run, makes exactly the queries 0 to [n], in this order, all for
    the item it was given, every one but the first a second after the reply
    to the one before, and is ready to send at the instant the last reply is
    back. *)
Theorem X4_guarded_polling_until_terminal (ErrImgInvalid : string) (P : Remote)
    (img : Image) (now : Z) (n fuel : nat) :
  (n < fuel)%nat ->
  (forall j, (j < n)%nat -> terminal (reply (P (PID img) (IID img) j)) = false) ->
  terminal (reply (P (PID img) (IID img) n)) = true ->
  let r := cloud.poll ErrImgInvalid P fuel img 0 now img in
  map number (queries (trace r)) = map Some (seq 0 (S n)) /\
  (exists x, offer r = Some (arrival P img 0 now n, x)) /\
  (forall t pid iid k, In (Query t pid iid k) (trace r) ->
     pid = PID img /\ iid = IID img /\ (k <= n)%nat /\
     t = match k with
         | O => now
         | S k' => arrival P img 0 now k' + Second
         end).
Proof.
  intros Hf Hpre Hterm r. subst r.
  rewrite (poll_reaches ErrImgInvalid P n fuel img 0%nat now img Hf Hpre Hterm).
  cbn [trace offer]. split; [apply queries_expected|].
  split; [eexists; reflexivity|].
  intros t pid iid k H. apply expected_queries in H. exact H.
Qed.

Lemma X4_guarded_polling_until_terminal_witness :
  (2 < 7)%nat /\
  terminal (reply (readyAfterTwo "p" "i" 2%nat)) = true /\
  map number (queries (trace (cloud.poll "image: invalid" readyAfterTwo 7
                                (mkImage "p" "i" "Pending" "") 0 0
                                (mkImage "p" "i" "Pending" ""))))
  = [Some 0%nat; Some 1%nat; Some 2%nat].
Proof.
  split; [repeat constructor|]. split; [reflexivity|].
  refine (proj1 (X4_guarded_polling_until_terminal "image: invalid" readyAfterTwo
                   (mkImage "p" "i" "Pending" "") 0 2 7 _ _ eq_refl)).
  - repeat constructor.
  - intros [|[|j]] Hj; [reflexivity | reflexivity | exfalso].
    apply Nat.succ_lt_mono, Nat.succ_lt_mono in Hj. exact (Nat.nlt_0_r j Hj).
Defined.

(** ** The worker: what [Digest] sends *)

Section DigestFacts.

Variable checkState : bool -> Z -> Image -> Checked.
Variable ch : Channels.

Hypothesis Hids : forall tie now img,
  ident (ret (checkState tie now img)) = ident img.

Hypothesis Hlater : forall tie now img,
  now <= at_return (checkState tie now img).

Lemma Digest_sent_prefix imgs : forall j now,
  exists rest,
    map ident imgs =
    map (fun s => ident (snd s)) (sent (shared.Digest checkState ch j now imgs)) ++ rest.
Proof.
  induction imgs as [|img imgs IH]; intros j now; cbn [shared.Digest].
  - exists []. reflexivity.
  - destruct (select2 _ _ _) as [t|t|]; cbn [sent map].
    + destruct (IH (S j) t) as (rest & Hrest).
      exists rest. cbn [snd app]. rewrite Hids. f_equal. exact Hrest.
    + eexists; reflexivity.
    + eexists; reflexivity.
Qed.

Lemma Digest_drains imgs : forall j now,
  Done ch = None ->
  (forall k, Result ch k <> None) ->
  (exists t, exit (shared.Digest checkState ch j now imgs) = Drained t) /\
  map (fun s => ident (snd s)) (sent (shared.Digest checkState ch j now imgs)) =
  map ident imgs.
Proof.
  intros j now HD HR. revert j now.
  induction imgs as [|img imgs IH]; intros j now; cbn [shared.Digest].
  - split; [eexists; reflexivity | reflexivity].
  - rewrite HD. destruct (Result ch j) as [d|] eqn:E; [|exfalso; exact (HR j E)].
    cbn [option_map select2 sent exit map snd].
    destruct (IH (S j) (at_return (checkState (tie ch j) now img) + Z.of_N d)) as [H1 H2].
    split; [exact H1|]. rewrite Hids. f_equal. exact H2.
Qed.

Lemma select2_sends pick now d td t :
  select2 pick (option_map (fun d => now + Z.of_N d) d) (option_map (Z.max now) td)
  = Sends t -> now <= t.
Proof.
  destruct d as [d|], td as [td|]; cbn [option_map select2]; try discriminate.
  - destruct (_ <? _); [intros [= <-]; lia|].
    destruct (_ <? _); [discriminate|].
    destruct pick; [intros [= <-]; lia|discriminate].
  - intros [= <-]; lia.
Qed.

Lemma select2_returns pick now d td t :
  select2 pick (option_map (fun d => now + Z.of_N d) d) (option_map (Z.max now) td)
  = Returns t -> exists td', td = Some td' /\ td' <= t /\ now <= t.
Proof.
  destruct d as [d|], td as [td|]; cbn [option_map select2]; try discriminate.
  - destruct (_ <? _); [discriminate|].
    destruct (_ <? _); [intros [= <-]; exists td; repeat split; lia|].
    destruct pick; [discriminate|intros [= <-]; exists td; repeat split; lia].
  - intros [= <-]. exists td; repeat split; lia.
Qed.

Lemma select2_blocks pick now d td :
  select2 pick (option_map (fun d => now + Z.of_N d) d) (option_map (Z.max now) td)
  = Blocks -> d = None /\ td = None.
Proof.
  destruct d as [d|], td as [td|]; cbn [option_map select2]; try discriminate.
  - destruct (_ <? _); [discriminate|].
    destruct (_ <? _); [discriminate|]. destruct pick; discriminate.
  - split; reflexivity.
Qed.

Lemma Digest_exit imgs : forall j now,
  match exit (shared.Digest checkState ch j now imgs) with
  | Drained t => now <= t
  | Cancelled t => exists td, Done ch = Some td /\ td <= t /\ now <= t
  | Stuck => Done ch = None /\ exists k, (j <= k)%nat /\ Result ch k = None
  end.
Proof.
  induction imgs as [|img imgs IH]; intros j now; cbn [shared.Digest].
  - cbn [exit]. lia.
  - pose proof (Hlater (tie ch j) now img) as Hl.
    destruct (select2 _ _ _) as [t|t|] eqn:E; cbn [exit].
    + apply select2_sends in E. specialize (IH (S j) t).
      destruct (exit _) as [t'|t'|].
      * lia.
      * destruct IH as (td & H1 & H2 & H3). exists td. repeat split; [exact H1|lia|lia].
      * destruct IH as (H1 & k & Hk & H2). split; [exact H1|].
        exists k. split; [lia|exact H2].
    + apply select2_returns in E as (td & H1 & H2 & H3).
      exists td. repeat split; [exact H1|lia|lia].
    + apply select2_blocks in E as [H1 H2]. split; [exact H2|].
      exists j. split; [lia|exact H1].
Qed.

Lemma Digest_sent_times imgs : forall j now t x,
  In (t, x) (sent (shared.Digest checkState ch j now imgs)) -> now <= t.
Proof.
  induction imgs as [|img imgs IH]; intros j now t x; cbn [shared.Digest].
  - intros [].
  - pose proof (Hlater (tie ch j) now img) as Hl.
    destruct (select2 _ _ _) as [t'|t'|] eqn:E; cbn [sent]; [|intros []|intros []].
    apply select2_sends in E.
    intros [[= <- _]|H]; [lia|]. apply IH in H. lia.
Qed.

End DigestFacts.

(** X5: a worker sends the items in the order in which it received them,
    each at most once, and what it leaves out is an end of the list: the
    identities of the items it sent are a beginning of those it was given.
    So in both revisions. *)
Theorem X5_Digest_sends_a_prefix (ErrImgInvalid ErrClientTimeout : string) (P : Remote)
    (Timeout : Duration) (ch : Channels) (j : nat) (now : Z) (imgs : list Image) :
  (exists rest,
     map ident imgs =
     map (fun s => ident (snd s))
         (sent (cloud.Digest ErrImgInvalid ErrClientTimeout P Timeout ch j now imgs))
     ++ rest) /\
  (exists rest,
     map ident imgs =
     map (fun s => ident (snd s))
         (sent (cloud0.Digest ErrClientTimeout P Timeout ch j now imgs))
     ++ rest).
Proof.
  split; apply Digest_sent_prefix; intros tie now' img.
  - apply checkState_ids.
  - apply checkState0_ids.
Qed.

(** X6: when [Done] is never closed and every value finds a receiver, a
    worker sends one item for every item it was given, in the same order,
    and leaves [Digest] because [Images] is drained. *)
Theorem X6_Digest_without_cancellation (ErrImgInvalid ErrClientTimeout : string)
    (P : Remote) (Timeout : Duration) (ch : Channels) (j : nat) (now : Z)
    (imgs : list Image) :
  Done ch = None ->
  (forall k, Result ch k <> None) ->
  let r := cloud.Digest ErrImgInvalid ErrClientTimeout P Timeout ch j now imgs in
  let r0 := cloud0.Digest ErrClientTimeout P Timeout ch j now imgs in
  ((exists t, exit r = Drained t) /\
   map (fun s => ident (snd s)) (sent r) = map ident imgs /\
   List.length (sent r) = List.length imgs) /\
  ((exists t, exit r0 = Drained t) /\
   map (fun s => ident (snd s)) (sent r0) = map ident imgs /\
   List.length (sent r0) = List.length imgs).
Proof.
  intros HD HR r r0. subst r r0. split.
  - destruct (Digest_drains
                (cloud.checkState ErrImgInvalid ErrClientTimeout P Timeout) ch) with
      (imgs := imgs) (j := j) (now := now) as [H1 H2]; try assumption.
    { intros tie now' img. apply checkState_ids. }
    unfold cloud.Digest. repeat split; [exact H1 | exact H2|].
    apply (f_equal (@List.length _)) in H2. rewrite !length_map in H2. exact H2.
  - destruct (Digest_drains (cloud0.checkState ErrClientTimeout P Timeout) ch) with
      (imgs := imgs) (j := j) (now := now) as [H1 H2]; try assumption.
    { intros tie now' img. apply checkState0_ids. }
    unfold cloud0.Digest. repeat split; [exact H1 | exact H2|].
    apply (f_equal (@List.length _)) in H2. rewrite !length_map in H2. exact H2.
Qed.

Lemma X6_Digest_without_cancellation_witness :
  Done openChannels = None /\
  map snd (sent (cloud.Digest "image: invalid" "client: timeout" readyAfterTwo
                   (10 * Second) openChannels 0 0
                   [mkImage "p" "i" "Pending" ""; mkImage "p" "k" "Pending" ""]))
  = [mkImage "p" "i" "Ready" ""; mkImage "p" "k" "Ready" ""] /\
  List.length (sent (cloud.Digest "image: invalid" "client: timeout" readyAfterTwo
                   (10 * Second) openChannels 0 0
                   [mkImage "p" "i" "Pending" ""; mkImage "p" "k" "Pending" ""])) = 2%nat.
Proof.
  split; [reflexivity|]. split; [reflexivity|].
  refine (proj2 (proj2 (proj1 (X6_Digest_without_cancellation "image: invalid"
            "client: timeout" readyAfterTwo (10 * Second) openChannels 0 0
            [mkImage "p" "i" "Pending" ""; mkImage "p" "k" "Pending" ""] eq_refl _)))).
  intros k. discriminate.
Defined.

(** X7: how a worker leaves [Digest].  It leaves on cancellation only if
    [Done] is closed, and not before it is closed; it stays blocked for ever
    only if [Done] is never closed and one of its values never finds a
    receiver; and nothing it sends or does at its exit is dated before its
    start.  So in both revisions. *)
Theorem X7_Digest_exits (ErrImgInvalid ErrClientTimeout : string) (P : Remote)
    (Timeout : Duration) (ch : Channels) (j : nat) (now : Z) (imgs : list Image) :
  let r := cloud.Digest ErrImgInvalid ErrClientTimeout P Timeout ch j now imgs in
  let r0 := cloud0.Digest ErrClientTimeout P Timeout ch j now imgs in
  (match exit r with
   | Drained t => now <= t
   | Cancelled t => exists td, Done ch = Some td /\ td <= t /\ now <= t
   | Stuck => Done ch = None /\ exists k, (j <= k)%nat /\ Result ch k = None
   end /\
   forall t x, In (t, x) (sent r) -> now <= t) /\
  (match exit r0 with
   | Drained t => now <= t
   | Cancelled t => exists td, Done ch = Some td /\ td <= t /\ now <= t
   | Stuck => Done ch = None /\ exists k, (j <= k)%nat /\ Result ch k = None
   end /\
   forall t x, In (t, x) (sent r0) -> now <= t).
Proof.
  cbv zeta. unfold cloud.Digest, cloud0.Digest. split; split.
  - apply Digest_exit. intros tie now' img. apply checkState_returns_in_time.
  - apply Digest_sent_times. intros tie now' img. apply checkState_returns_in_time.
  - apply Digest_exit. intros tie now' img. apply checkState0_returns_in_time.
  - apply Digest_sent_times. intros tie now' img. apply checkState0_returns_in_time.
Qed.

(** ** The pool: after [Result] is closed *)

(** X8: in every state the goroutines started by [Run] can reach, the wait
    group's counter is the number of digesters that have not called
    [wg.Done()] yet, so it is never negative; and once [Result] is closed no
    goroutine of the pool moves any more: nothing is sent on the closed
    channel and it is not closed again. *)
Theorem X8_pool_is_still_after_close (NumCPU n : Z) (p : Pool) :
  0 < NumCPU ->
  steps (boot (cloud.Run NumCPU n)) p ->
  counter p = Z.of_nat (pending (digesters p)) /\
  0 <= counter p <= returned (cloud.Run NumCPU n) /\
  (closes p = 1%nat -> halted p).
Proof.
  intros Hcpu Hs.
  pose proof (sound_steps _ _ _ (sound_boot NumCPU n Hcpu) Hs) as [Hsize Hcount Hcl].
  split; [exact Hcount|]. split.
  - rewrite Hcount. split; [lia|].
    assert (Hle : (pending (digesters p) <= List.length (digesters p))%nat).
    { unfold pending. apply filter_length_le. }
    rewrite Hsize in Hle.
    assert (0 < returned (cloud.Run NumCPU n)).
    { unfold cloud.Run. rewrite Run_spawns. cbv zeta. cbn [returned].
      destruct (Z.leb_spec n 0); lia. }
    lia.
  - intros H1. destruct p as [l c k m e d].
    cbn [closes closer digesters] in *. unfold allGone in Hcl. cbn [digesters] in Hcl.
    destruct k; [lia | destruct Hcl; lia |].
    apply halted_final, Hcl.
Qed.

Lemma X8_pool_is_still_after_close_witness :
  0 < 8 /\
  counter (mkPool [Gone; AtWgDone] 1 AtWait 0 1 0) = 1 /\
  0 <= counter (mkPool [Gone; AtWgDone] 1 AtWait 0 1 0) <= 2.
Proof.
  assert (Hrun : steps (boot (cloud.Run 8 2)) (mkPool [Gone; AtWgDone] 1 AtWait 0 1 0)).
  { eapply steps_then; [eapply steps_then; [eapply steps_then;
      [eapply steps_then; [apply steps_refl|]|]|]|].
    - exact (step_emit [] [InDigest] 2 AtWait 0 0 0).
    - exact (step_return [] [InDigest] 2 AtWait 0 1 0).
    - exact (step_return [AtWgDone] [] 2 AtWait 0 1 0).
    - exact (step_wg_done [] [AtWgDone] 2 AtWait 0 1 0). }
  split; [reflexivity|].
  pose proof (X8_pool_is_still_after_close 8 2 _ eq_refl Hrun) as H.
  split; [exact (proj1 H) | exact (proj1 (proj2 H))].
Defined.

(* ================================================================== *)
(** * Further properties of package service *)

Section CheckerFacts.

Import service.

Variable World : Type.
Variable log_Printf : LogFn World.

Lemma range_app logger cs1 cs2 : forall w,
  range World logger (cs1 ++ cs2) w =
  match range World logger cs1 w with
  | (Some err, w1) => (Some err, w1)
  | (None, w1) => range World logger cs2 w1
  end.
Proof.
  induction cs1 as [|c cs1 IH]; intros w; cbn [app range].
  - reflexivity.
  - destruct (c logger w) as [[err|] w1]; [reflexivity|apply IH].
Qed.

(** X9: checking two lists of checkers one after the other is checking
    the first list and, only if it passes, the second from where the first
    left the world; a failure in the first list is the result. *)
Theorem X9_Check_of_two_lists (logger : option (LogFn World))
    (cs1 cs2 : list (CheckFn World)) (w : World) :
  Check World log_Printf logger (cs1 ++ cs2) w =
  match Check World log_Printf logger cs1 w with
  | (Some err, w1) => (Some err, w1)
  | (None, w1) => Check World log_Printf logger cs2 w1
  end.
Proof. unfold Check. apply range_app. Qed.

Variable ActiveSystemMode : World -> string * World.
Variable NormalMode ReadOnlyMode : string.
Variable ErrReadOnly : errors.error.

Local Notation "'CheckAPIServer'" :=
  (service.CheckAPIServer World ActiveSystemMode NormalMode ReadOnlyMode ErrReadOnly).
Local Notation "'CheckAPIServerLite'" :=
  (service.CheckAPIServerLite World ActiveSystemMode NormalMode ReadOnlyMode).

Lemma CheckAPIServer_outcome logger w :
  let mode := fst (ActiveSystemMode w) in
  let w1 := snd (ActiveSystemMode w) in
  CheckAPIServer logger w =
  if (mode =? NormalMode)%string then (None, w1)
  else (Some (if (mode =? ReadOnlyMode)%string then ErrReadOnly else errors.ErrOffline),
        logger "Nothing could be uploaded at the moment!\n" []
               (logger "API server is in %q mode.\n" [mode] w1)).
Proof.
  cbv zeta. unfold service.CheckAPIServer.
  destruct (ActiveSystemMode w) as [mode w1]. cbn [fst snd].
  destruct (mode =? NormalMode)%string; cbn [negb]; [reflexivity|].
  destruct (mode =? ReadOnlyMode)%string; reflexivity.
Qed.

Lemma CheckAPIServerLite_outcome logger w :
  let mode := fst (ActiveSystemMode w) in
  CheckAPIServerLite logger w =
  (if (mode =? NormalMode)%string || (mode =? ReadOnlyMode)%string
   then None else Some errors.ErrOffline,
   snd (ActiveSystemMode w)).
Proof.
  cbv zeta. unfold service.CheckAPIServerLite.
  destruct (ActiveSystemMode w) as [mode w1]. cbn [fst snd].
  destruct (mode =? NormalMode)%string, (mode =? ReadOnlyMode)%string; reflexivity.
Qed.

(** X10: [CheckAPIServerLite] accepts whatever [CheckAPIServer] accepts;
    when it fails, it fails with [ErrOffline] and so does [CheckAPIServer];
    a server the lite check accepts and the full check refuses is refused
    with [ErrReadOnly].  The lite check never logs: it leaves the world as
    the query of the mode left it. *)
Theorem X10_lite_check_is_weaker (logger logger' : LogFn World) (w : World) :
  (fst (CheckAPIServer logger w) = None -> fst (CheckAPIServerLite logger' w) = None) /\
  (fst (CheckAPIServerLite logger' w) <> None ->
   fst (CheckAPIServerLite logger' w) = Some errors.ErrOffline /\
   fst (CheckAPIServer logger w) = Some errors.ErrOffline) /\
  (fst (CheckAPIServerLite logger' w) = None ->
   fst (CheckAPIServer logger w) <> None ->
   fst (CheckAPIServer logger w) = Some ErrReadOnly) /\
  snd (CheckAPIServerLite logger' w) = snd (ActiveSystemMode w).
Proof.
  rewrite CheckAPIServer_outcome, CheckAPIServerLite_outcome. cbv zeta.
  destruct (fst (ActiveSystemMode w) =? NormalMode)%string,
           (fst (ActiveSystemMode w) =? ReadOnlyMode)%string; cbn;
    repeat split; try discriminate; try reflexivity; intros; congruence.
Qed.

Variable SearchProjectID : string -> bool -> World -> (Project + errors.error) * World.

Local Notation "'CheckPID'" := (service.CheckPID World SearchProjectID).

Lemma CheckPID_not_found kind pid logger w err w1 :
  SearchProjectID pid true w = (inr err, w1) ->
  CheckPID kind pid logger w =
  (Some err, logger "Project could not be found! Error:" [errors.Error err] w1).
Proof. intros H. unfold service.CheckPID. rewrite H. reflexivity. Qed.

Lemma CheckPID_found kind pid logger w p w1 :
  SearchProjectID pid true w = (inl p, w1) ->
  fst (CheckPID kind pid logger w) =
  if (kind =? "meta")%string then
    if IsImported p then Some errors.ErrProjNotFound else None
  else if (kind =? "model")%string then
    if IsImported p then None else Some errors.ErrProjNotFound
  else None.
Proof.
  intros H. unfold service.CheckPID. rewrite H.
  destruct (String.eqb_spec kind "image") as [->|_]; [reflexivity|].
  destruct (kind =? "meta")%string; [destruct (IsImported p); reflexivity|].
  destruct (kind =? "model")%string; [destruct (IsImported p); reflexivity|].
  reflexivity.
Qed.

(** X11: the kinds of [CheckPID] on one and the same project.  A project
    that is found passes exactly one of the checks for ["meta"] and
    ["model"], and always the one for ["image"]; a project that is not found
    fails the check for every kind, with the error of the search. *)
Theorem X11_CheckPID_meta_or_model (pid : string) (logger : LogFn World) (w : World) :
  match fst (SearchProjectID pid true w) with
  | inl p =>
      (fst (CheckPID "meta" pid logger w) = None <->
       fst (CheckPID "model" pid logger w) <> None) /\
      (fst (CheckPID "meta" pid logger w) = None <-> IsImported p = false) /\
      fst (CheckPID "image" pid logger w) = None
  | inr err => forall kind, fst (CheckPID kind pid logger w) = Some err
  end.
Proof.
  destruct (SearchProjectID pid true w) as [[p|err] w1] eqn:E; cbn [fst].
  - rewrite !(CheckPID_found _ _ _ _ _ _ E). cbn.
    destruct (IsImported p); repeat split; intros; try discriminate; congruence.
  - intros kind. rewrite (CheckPID_not_found _ _ _ _ _ _ E). reflexivity.
Qed.

Variable FileInfo : Type.
Variable Stat : string -> World -> (FileInfo + errors.error) * World.
Variable IsNotExist : errors.error -> bool.
Variable IsDir : FileInfo -> bool.
Variable ErrFileNotDir ErrFileNotZip ErrFileNotDirOrZip : errors.error.
Variable IsZipFile : string -> World -> (bool + errors.error) * World.

Local Notation "'CheckFile'" := (service.CheckFile World FileInfo Stat IsNotExist).
Local Notation "'CheckDir'" := (service.CheckDir World FileInfo Stat IsDir ErrFileNotDir).
Local Notation "'CheckZip'" := (service.CheckZip World ErrFileNotZip IsZipFile).
Local Notation "'CheckDirOrZip'" :=
  (service.CheckDirOrZip World FileInfo Stat IsDir ErrFileNotDir ErrFileNotZip
     ErrFileNotDirOrZip IsZipFile).

Lemma CheckDir_outcome d logger w :
  CheckDir d logger w =
  (match fst (Stat d w) with
   | inl fi => if IsDir fi then None else Some ErrFileNotDir
   | inr _ => Some ErrFileNotDir
   end, snd (Stat d w)).
Proof.
  unfold service.CheckDir. destruct (Stat d w) as [[fi|err] w1]; cbn [fst snd];
    [destruct (IsDir fi)|]; reflexivity.
Qed.

(** X12: [CheckFile] fails only when [os.Stat] fails with an error that
    [os.IsNotExist] recognises, and then returns that very error; a path
    that cannot be examined for another reason passes as if it were there.
    Whatever passes [CheckDir] passes [CheckFile], silently. *)
Theorem X12_CheckFile_fails_only_on_not_exist (f : string)
    (logger logger' : LogFn World) (w : World) :
  (forall err, fst (CheckFile f logger w) = Some err ->
     fst (Stat f w) = inr err /\ IsNotExist err = true /\
     fst (CheckDir f logger' w) = Some ErrFileNotDir) /\
  (forall err, fst (Stat f w) = inr err -> IsNotExist err = false ->
     CheckFile f logger w = (None, snd (Stat f w))) /\
  (fst (CheckDir f logger' w) = None ->
     CheckFile f logger w = (None, snd (Stat f w))).
Proof.
  rewrite CheckDir_outcome. unfold service.CheckFile.
  destruct (Stat f w) as [[fi|e] w1]; cbn [fst snd].
  - repeat split; try discriminate; try reflexivity.
  - repeat split.
    + destruct (IsNotExist e); cbn [fst] in H; [injection H as ->; reflexivity|discriminate].
    + destruct (IsNotExist e) eqn:E; cbn [fst] in H; [injection H as <-; exact E|discriminate].
    + intros err [= ->] ->. reflexivity.
    + discriminate.
Qed.

(** X13: [CheckDirOrZip] passes exactly when the path passes [CheckDir]
    or, after it, [CheckZip]; it fails with [ErrFileNotDirOrZip] and with
    nothing else, whatever the two checks fail with.  It always makes both
    probes, and never uses the logger it is given. *)
Theorem X13_CheckDirOrZip (p : string) (logger logger' : LogFn World) (w : World) :
  let r := CheckDirOrZip p logger w in
  let w1 := snd (Stat p w) in
  (fst r = None \/ fst r = Some ErrFileNotDirOrZip) /\
  (fst r = None <->
   fst (CheckDir p (QuietLog World) w) = None \/
   fst (CheckZip p (QuietLog World) w1) = None) /\
  snd r = snd (IsZipFile p w1) /\
  CheckDirOrZip p logger' w = r.
Proof.
  cbv zeta. unfold service.CheckDirOrZip. rewrite CheckDir_outcome.
  unfold service.CheckZip, QuietLog.
  destruct (Stat p w) as [[fi|e] w1]; cbn [fst snd];
    [destruct (IsDir fi)|];
    (destruct (IsZipFile p w1) as [[[|]|e2] w2]; cbn [fst snd negb];
     repeat split; auto; try (intros [H|H]; discriminate H); try discriminate).
Qed.

Variable filepath_Join : string -> string -> string.
Variable ValidMetafileNames : list string.
Variable IsFileExist : string -> World -> bool * World.

Local Notation "'GetMetafilePaths'" :=
  (service.GetMetafilePaths World FileInfo Stat IsDir ErrFileNotDir filepath_Join
     ValidMetafileNames IsFileExist).
Local Notation "'findMetafiles'" :=
  (service.findMetafiles World filepath_Join IsFileExist).

Lemma findMetafiles_incl dir names : forall ret w,
  exists found,
    fst (findMetafiles dir names ret w) = ret ++ found /\
    incl found (map (filepath_Join dir) names) /\
    (List.length found <= List.length names)%nat.
Proof.
  induction names as [|name names IH]; intros ret w; cbn [service.findMetafiles].
  - exists []. rewrite app_nil_r. repeat split; [apply incl_refl|apply Nat.le_refl].
  - destruct (IsFileExist (filepath_Join dir name) w) as [[|] w1].
    + destruct (IH (ret ++ [filepath_Join dir name]) w1) as (found & H1 & H2 & H3).
      exists (filepath_Join dir name :: found). rewrite H1, <- app_assoc.
      repeat split; cbn [app map List.length].
      * apply incl_cons; [left; reflexivity|apply incl_tl; exact H2].
      * apply le_n_S; exact H3.
    + destruct (IH ret w1) as (found & H1 & H2 & H3).
      exists found. repeat split; [exact H1 | apply incl_tl; exact H2|].
      cbn [List.length]. apply Nat.le_le_succ_r; exact H3.
Qed.

Lemma findMetafiles_filter dir names : forall ret w,
  (forall p w, snd (IsFileExist p w) = w) ->
  findMetafiles dir names ret w =
  (ret ++ filter (fun p => fst (IsFileExist p w)) (map (filepath_Join dir) names), w).
Proof.
  intros ret w Hro. revert ret.
  induction names as [|name names IH]; intros ret; cbn [service.findMetafiles map filter].
  - rewrite app_nil_r. reflexivity.
  - pose proof (Hro (filepath_Join dir name) w) as Hw.
    destruct (IsFileExist (filepath_Join dir name) w) as [[|] w1]; cbn [fst snd] in *;
      subst w1; rewrite IH; [rewrite <- app_assoc|]; reflexivity.
Qed.

(** X14: [GetMetafilePaths].  On a path that is not a directory it returns
    no path and [ErrFileNotDir], without looking for any file.  Otherwise it
    returns no error and, of the valid meta file names joined to the
    directory, at most one path each and no other path; if looking for a
    file does not change anything, the paths are exactly those that exist,
    in the order of the valid names. *)
Theorem X14_GetMetafilePaths (dir : string) (w : World) :
  let r := GetMetafilePaths dir w in
  let w1 := snd (Stat dir w) in
  (fst (CheckDir dir (QuietLog World) w) <> None ->
   r = (([], Some ErrFileNotDir), w1)) /\
  (fst (CheckDir dir (QuietLog World) w) = None ->
   snd (fst r) = None /\
   incl (fst (fst r)) (map (filepath_Join dir) ValidMetafileNames) /\
   (List.length (fst (fst r)) <= List.length ValidMetafileNames)%nat) /\
  (fst (CheckDir dir (QuietLog World) w) = None ->
   (forall p w, snd (IsFileExist p w) = w) ->
   r = ((filter (fun p => fst (IsFileExist p w1))
               (map (filepath_Join dir) ValidMetafileNames), None), w1)).
Proof.
  cbv zeta. unfold service.GetMetafilePaths. rewrite CheckDir_outcome.
  destruct (Stat dir w) as [[fi|e] w1]; cbn [fst snd];
    [destruct (IsDir fi)|]; repeat split; try congruence.
  - destruct (findMetafiles_incl dir ValidMetafileNames [] w1) as (found & H1 & _).
    destruct (findMetafiles dir ValidMetafileNames [] w1); reflexivity.
  - destruct (findMetafiles_incl dir ValidMetafileNames [] w1) as (found & H1 & H2 & _).
    destruct (findMetafiles dir ValidMetafileNames [] w1) as [ret w2].
    cbn [fst snd app] in *. subst ret. exact H2.
  - destruct (findMetafiles_incl dir ValidMetafileNames [] w1) as (found & H1 & _ & H3).
    destruct (findMetafiles dir ValidMetafileNames [] w1) as [ret w2].
    cbn [fst snd app] in *. subst ret. exact H3.
  - intros _ Hro. rewrite (findMetafiles_filter dir ValidMetafileNames [] w1 Hro).
    reflexivity.
Qed.

Variable URL : Type.
Variable Hostname : URL -> string.
Variable PreferredLocalURL : bool -> World -> (URL + errors.error) * World.
Variable CheckVisibilityIPPort : string -> string -> bool -> World -> option errors.error * World.
Variable SupportedCloud : string -> string -> string -> World -> list string * World.
Variable ToLower : string -> string.
Variable BestMatch : list string -> string -> string -> string.
Variable DirectUploadMethod : string.
Variable ErrUploadMethodInvalid : errors.error.

Local Notation "'CheckUploadMethod'" :=
  (service.CheckUploadMethod World log_Printf URL Hostname PreferredLocalURL
     CheckVisibilityIPPort SupportedCloud ToLower BestMatch DirectUploadMethod
     ErrUploadMethodInvalid).

(** X15: [CheckUploadMethod].  With [skip] it passes without asking the
    server or logging; an empty method is refused before the server is
    asked.  A method other than the direct one passes exactly when
    [text.BestMatch] finds it among the methods the server supports, if not
    it is refused with [ErrUploadMethodInvalid]; the direct method with an
    address fails exactly when the address is not visible, whatever the
    server supports. *)
Theorem X15_CheckUploadMethod (kind method ip port : string) (logger : LogFn World)
    (w : World) :
  let sup := fst (SupportedCloud "" "" kind w) in
  let w1 := snd (SupportedCloud "" "" kind w) in
  let r := CheckUploadMethod kind method ip port false logger w in
  CheckUploadMethod kind method ip port true logger w = (None, w) /\
  CheckUploadMethod kind "" ip port false logger w =
    (Some ErrUploadMethodInvalid, logger "No upload method is provided." [] w) /\
  (method <> "" -> ToLower method <> DirectUploadMethod ->
   (fst r = None <-> BestMatch sup (ToLower method) "" <> "") /\
   (fst r = None \/ fst r = Some ErrUploadMethodInvalid) /\
   (fst r = None -> snd r = w1)) /\
  (method <> "" -> ToLower method = DirectUploadMethod -> ip <> "" -> port <> "" ->
   fst r = fst (CheckVisibilityIPPort ip port true w1)).
Proof.
  cbv zeta. unfold service.CheckUploadMethod. cbn [String.eqb].
  split; [reflexivity|]. split; [reflexivity|].
  destruct (SupportedCloud "" "" kind w) as [sup w1]. cbn [fst snd].
  split.
  - intros Hm Hd.
    destruct (String.eqb_spec method ""); [contradiction|].
    destruct (String.eqb_spec (ToLower method) DirectUploadMethod); [contradiction|].
    destruct (String.eqb_spec (BestMatch sup (ToLower method) "") "") as [E|E];
      cbn [fst snd]; repeat split; auto; try discriminate; try congruence.
  - intros Hm Hd Hip Hport.
    destruct (String.eqb_spec method ""); [contradiction|].
    destruct (String.eqb_spec (ToLower method) DirectUploadMethod); [|contradiction].
    destruct (String.eqb_spec ip ""); [contradiction|].
    destruct (String.eqb_spec port ""); [contradiction|]. cbn [negb andb].
    unfold service.CheckDirectUploadIPPort.
    destruct (CheckVisibilityIPPort ip port true w1) as [[err|] w2]; reflexivity.
Qed.

End CheckerFacts.

(* ================================================================== *)
(** * Properties of the buckets, the table rows and the commands *)

Lemma fold_left_snoc {A B : Type} (f : A -> B) (l : list A) : forall acc,
  fold_left (fun ret a => ret ++ [f a]) l acc = acc ++ map f l.
Proof.
  induction l as [|a l IH]; intros acc; cbn [fold_left map].
  - symmetry; apply app_nil_r.
  - rewrite IH, <- app_assoc. reflexivity.
Qed.

Section BucketFacts.

Variable World : Type.
Variable ErrBucketInvalid : errors.error.
Variable GetActive : World -> gql.Active * World.
Variable client_Run : gql.Request -> World -> (list string + errors.error) * World.

Local Notation "'BucketList'" :=
  (gql.BucketList World ErrBucketInvalid GetActive client_Run).

Lemma bucketType_pairs kind cloud :
  match gql.lookup gql.bucketType kind with
  | None => ~ In (kind, cloud) bucketPairs
  | Some b =>
      match gql.lookup b cloud with
      | None => ~ In (kind, cloud) bucketPairs
      | Some t => In (kind, cloud) bucketPairs /\ In t bucketTypeNames
      end
  end.
Proof.
  unfold gql.bucketType, bucketPairs, bucketTypeNames. cbn [gql.lookup].
  destruct (String.eqb_spec kind "image") as [->|Hi].
  - cbn [gql.lookup].
    destruct (String.eqb_spec cloud "s3") as [->|H1]; [cbn; auto 10|].
    destruct (String.eqb_spec cloud "oss") as [->|H2]; [cbn; auto 10|].
    destruct (String.eqb_spec cloud "minio") as [->|H3]; [cbn; auto 10|].
    cbn. intros [H|[H|[H|[H|[H|[]]]]]]; inversion H; congruence.
  - destruct (String.eqb_spec kind "model") as [->|Hm].
    + cbn [gql.lookup].
      destruct (String.eqb_spec cloud "s3") as [->|H1]; [cbn; auto 10|].
      destruct (String.eqb_spec cloud "minio") as [->|H3]; [cbn; auto 10|].
      cbn. intros [H|[H|[H|[H|[H|[]]]]]]; inversion H; congruence.
    + cbn. intros [H|[H|[H|[H|[H|[]]]]]]; inversion H; congruence.
Qed.

(** X20: [BucketList] knows five pairs of kind and cloud.  For any other
    pair, the kind ["meta"] and the pair of ["model"] and ["oss"] among them,
    it returns no bucket and [ErrBucketInvalid] without reading the
    configuration or sending a request.  For one of the five it sends one
    request, for one of the five type names, to the endpoint of the active
    profile with its key, and returns the names the server lists, in their
    order, or no bucket and the error of the request. *)
Theorem X20_BucketList_pairs (kind cloud : string) (w : World) :
  (~ In (kind, cloud) bucketPairs ->
   BucketList kind cloud w = (([], Some ErrBucketInvalid), w)) /\
  (In (kind, cloud) bucketPairs ->
   exists t, In t bucketTypeNames /\
     let active := fst (GetActive w) in
     let req := gql.mkRequest (gql.Endpoint active ++ "/graphql")%string
                              gql.bucketQuery (gql.Key active) t in
     BucketList kind cloud w =
     match client_Run req (snd (GetActive w)) with
     | (inl names, w2) => ((names, None), w2)
     | (inr err, w2) => (([], Some err), w2)
     end).
Proof.
  pose proof (bucketType_pairs kind cloud) as H. unfold gql.BucketList.
  destruct (gql.lookup gql.bucketType kind) as [b|]; [|split; [reflexivity|contradiction]].
  destruct (gql.lookup b cloud) as [t|]; [|split; [reflexivity|contradiction]].
  destruct H as [Hin Ht]. split; [contradiction|].
  intros _. exists t. split; [exact Ht|]. cbv zeta.
  destruct (GetActive w) as [active w1]. cbn [fst snd].
  destruct (client_Run _ w1) as [[names|err] w2]; [|reflexivity].
  rewrite (fold_left_snoc (fun x => x)), map_id. reflexivity.
Qed.

Lemma BucketList_ok kind cloud w buks w' :
  BucketList kind cloud w = ((buks, None), w') -> In (kind, cloud) bucketPairs.
Proof.
  pose proof (bucketType_pairs kind cloud) as H. unfold gql.BucketList.
  destruct (gql.lookup gql.bucketType kind) as [b|]; [|discriminate].
  destruct (gql.lookup b cloud) as [t|]; [|discriminate].
  intros _. apply H.
Qed.

Variable log_Printf : service.LogFn World.
Variable log_Println : list string -> World -> World.
Variable ActiveSystemMode : World -> string * World.
Variable Sprintf_d : Z -> string.
Variable SupportedCloud : string -> string -> string -> World -> list string * World.
Variable SuggestedBucket : string -> string -> World -> (string + errors.error) * World.
Variable sort_Strings : list string -> list string.
Variable ToLower : string -> string.

Local Notation "'overClouds'" :=
  (cmd.overClouds World Sprintf_d ErrBucketInvalid GetActive client_Run SuggestedBucket
     sort_Strings ToLower).
Local Notation "'overKinds'" :=
  (cmd.overKinds World Sprintf_d SupportedCloud ErrBucketInvalid GetActive client_Run
     SuggestedBucket sort_Strings ToLower).
Local Notation "'bucketCmd'" :=
  (cmd.bucketCmd World log_Printf log_Println ActiveSystemMode Sprintf_d SupportedCloud
     ErrBucketInvalid GetActive client_Run SuggestedBucket sort_Strings ToLower).

Local Notation "'bucketRow'" := (isBucketRow ToLower).

Lemma overClouds_rows k clouds : forall buckets w buckets' w',
  Forall bucketRow buckets ->
  overClouds k clouds buckets w = (inl buckets', w') ->
  Forall bucketRow buckets'.
Proof.
  induction clouds as [|c clouds IH]; intros buckets w buckets' w' HF; cbn [cmd.overClouds].
  - intros [= <- _]. exact HF.
  - destruct (BucketList k c w) as [[buks [err|]] w1] eqn:E.
    + destruct (negb _); [discriminate|]. apply IH. exact HF.
    + destruct (SuggestedBucket k c w1) as [[suggested|err] w2]; [|discriminate].
      apply IH. apply Forall_app. split; [exact HF|].
      constructor; [|constructor].
      do 5 eexists. split; [reflexivity|]. eapply BucketList_ok; exact E.
Qed.

Lemma overKinds_rows kinds : forall buckets w buckets' w',
  Forall bucketRow buckets ->
  overKinds kinds buckets w = (inl buckets', w') ->
  Forall bucketRow buckets'.
Proof.
  induction kinds as [|k kinds IH]; intros buckets w buckets' w' HF; cbn [cmd.overKinds].
  - intros [= <- _]. exact HF.
  - destruct (SupportedCloud "" "" k w) as [clouds w1].
    destruct (overClouds k clouds buckets w1) as [[buckets1|err] w2] eqn:E; [|discriminate].
    apply IH. eapply overClouds_rows; eassumption.
Qed.

(** X21: the listing of [bucketCmd].  It is refused exactly when the mode
    of the server is not ["Normal"].  When the table is rendered, its
    header has five columns and every row five cells, for a kind and a
    cloud that [BucketList] knows as a pair: whatever clouds the server
    reports for the kind ["meta"], the table has no row for it. *)
Theorem X21_bucketCmd_rows (w : World) :
  match fst (bucketCmd w) with
  | cmd.Refused => fst (ActiveSystemMode w) <> "Normal"
  | cmd.Panicked _ => fst (ActiveSystemMode w) = "Normal"
  | cmd.Rendered table =>
      fst (ActiveSystemMode w) = "Normal" /\
      List.length (tablewriter.header table) = 5%nat /\
      Forall (fun row => List.length row = 5%nat /\ bucketRow row /\
                         nth 0 row "" <> "meta")
             (tablewriter.rows table)
  end.
Proof.
  unfold cmd.bucketCmd. destruct (ActiveSystemMode w) as [mode w1]. cbn [fst].
  destruct (String.eqb_spec mode "Normal") as [->|Hm]; cbn [negb fst]; [|exact Hm].
  destruct (overKinds ["image"; "meta"; "model"] [] w1) as [[buckets|err] w2] eqn:E;
    cbn [fst]; [|reflexivity].
  split; [reflexivity|]. split; [reflexivity|].
  unfold tablewriter.AppendBulk, tablewriter.SetHeader, tablewriter.NewWriter.
  cbn [tablewriter.rows tablewriter.header app].
  pose proof (overKinds_rows _ _ _ _ _ (Forall_nil _) E) as HF.
  eapply Forall_impl; [|exact HF].
  intros row (k & c & b & s & n & -> & Hin). split; [reflexivity|].
  split; [do 5 eexists; split; [reflexivity|exact Hin]|].
  cbn [nth]. intros ->.
  unfold bucketPairs in Hin. cbn in Hin.
  destruct Hin as [H|[H|[H|[H|[H|[]]]]]]; discriminate H.
Qed.

End BucketFacts.

Section TableFacts.

Variable float64 Time CloudPath DownloadsConnection : Type.
Variable Key : CloudPath -> string.
Variable Sprintf_d : Z -> string.
Variable Sprintf_2f : float64 -> string.
Variable Format : Time -> string -> string.

Local Notation "'Project'" := (types.Project float64 Time CloudPath DownloadsConnection).
Local Notation "'RowString'" :=
  (types.RowString float64 Time CloudPath DownloadsConnection Key Sprintf_d Sprintf_2f
     Format).
Local Notation "'ProjectsToTable'" :=
  (types.ProjectsToTable float64 Time CloudPath DownloadsConnection Key Sprintf_d
     Sprintf_2f Format).

Lemma ProjectsToTable_rows (webDomain : string) (ps : list Project) : forall t,
  fold_left (fun table p => tablewriter.Append table (RowString p webDomain)) ps t =
  tablewriter.mkTable (tablewriter.header t)
    (tablewriter.rows t ++ map (fun p => RowString p webDomain) ps).
Proof.
  induction ps as [|p ps IH]; intros [h r];
    cbn [fold_left map tablewriter.header tablewriter.rows].
  - rewrite app_nil_r. reflexivity.
  - rewrite IH. unfold tablewriter.Append.
    cbn [tablewriter.header tablewriter.rows]. rewrite <- app_assoc. reflexivity.
Qed.

(** X22: the table of projects has the header [ProjectHeaderString] and
    one row for every project, in the order of the projects; every row has
    as many cells as the header has columns, starts with the id of its
    project and ends with the link to its model, and its cloud cell joins
    the keys of all the project's cloud paths, in their order. *)
Theorem X22_ProjectsToTable (ps : list Project) (webDomain : string) :
  let t := ProjectsToTable ps webDomain in
  tablewriter.header t = types.ProjectHeaderString /\
  tablewriter.rows t = map (fun p => RowString p webDomain) ps /\
  Forall (fun row => List.length row = List.length (tablewriter.header t))
         (tablewriter.rows t) /\
  (forall p, In p ps ->
     nth 0 (RowString p webDomain) "" = types.ID _ _ _ _ p /\
     nth 7 (RowString p webDomain) "" =
       Join (map Key (types.CloudPaths _ _ _ _ p)) ", " /\
     nth 9 (RowString p webDomain) "" =
       (webDomain ++ "/project-model?pid=" ++ types.ID _ _ _ _ p)%string).
Proof.
  cbv zeta. unfold types.ProjectsToTable. rewrite ProjectsToTable_rows.
  unfold tablewriter.SetHeader, tablewriter.NewWriter.
  cbn [tablewriter.header tablewriter.rows app].
  split; [reflexivity|]. split; [reflexivity|]. split.
  - apply Forall_forall. intros row Hrow. apply in_map_iff in Hrow as (p & <- & _).
    reflexivity.
  - intros p _. cbn [nth types.RowString]. unfold types.Cloud.
    rewrite (fold_left_snoc Key). repeat split.
Qed.

End TableFacts.

Section CommandFacts.

Variable World : Type.
Variable log_Printf : service.LogFn World.
Variable log_Println : list string -> World -> World.
Variable ActiveSystemMode : World -> string * World.
Variable NormalMode ReadOnlyMode : string.
Variable ErrReadOnly : errors.error.
Variable SearchProjectID :
  string -> bool -> World -> (service.Project + errors.error) * World.
Variable FileInfo : Type.
Variable Stat : string -> World -> (FileInfo + errors.error) * World.
Variable IsNotExist : errors.error -> bool.
Variable Base : string -> string.
Variable Contains : list string -> string -> bool.
Variable ErrMetaFilenameInvalid : errors.error.

Local Notation "'importMeta_checks'" :=
  (cmd.importMeta_checks World log_Printf ActiveSystemMode NormalMode ReadOnlyMode
     ErrReadOnly SearchProjectID FileInfo Stat IsNotExist Base Contains
     ErrMetaFilenameInvalid).
Local Notation "'exportImage_checks'" :=
  (cmd.exportImage_checks World log_Printf ActiveSystemMode NormalMode ReadOnlyMode
     ErrReadOnly SearchProjectID).

(** X16: the pre-checks of the import of a meta file.  When the server is
    not in normal mode they fail with [ErrReadOnly] or [ErrOffline] after
    two lines of [log.Printf], and nothing else is done: the project is not
    searched and the file not looked at.  When they pass, the server was in
    normal mode, the project was found and is not imported, [os.Stat] did
    not report the file as not existing, its base name is among the valid
    names, and nothing was logged. *)
Theorem X16_importMeta_checks (id meta : string) (w : World) :
  let mode := fst (ActiveSystemMode w) in
  let w1 := snd (ActiveSystemMode w) in
  (mode <> NormalMode ->
   importMeta_checks id meta w =
   (Some (if (mode =? ReadOnlyMode)%string then ErrReadOnly else errors.ErrOffline),
    log_Printf "Nothing could be uploaded at the moment!\n" []
               (log_Printf "API server is in %q mode.\n" [mode] w1))) /\
  (fst (importMeta_checks id meta w) = None ->
   mode = NormalMode /\
   exists p w2,
     SearchProjectID id true w1 = (inl p, w2) /\
     service.IsImported p = false /\
     (forall err, fst (Stat meta w2) = inr err -> IsNotExist err = false) /\
     Contains cmd.validNames (Base meta) = true /\
     snd (importMeta_checks id meta w) = snd (Stat meta w2)).
Proof.
  cbv zeta. unfold cmd.importMeta_checks, service.Check. cbn [service.range].
  rewrite !(CheckAPIServer_outcome World ActiveSystemMode NormalMode ReadOnlyMode
              ErrReadOnly). cbv zeta.
  destruct (ActiveSystemMode w) as [mode w1]. cbn [fst snd].
  destruct (String.eqb_spec mode NormalMode) as [->|Hm].
  - split; [intros H; contradiction|].
    unfold service.CheckPID. cbn [String.eqb Ascii.eqb Bool.eqb].
    destruct (SearchProjectID id true w1) as [[p|err] w2];
      [|cbn [fst]; intros H; discriminate H].
    destruct (service.IsImported p) eqn:Ep; [cbn [fst]; intros H; discriminate H|].
    unfold service.CheckFile, service.CheckFilenames.
    destruct (Stat meta w2) as [[fi|err] w3] eqn:Es.
    + destruct (Contains cmd.validNames (Base meta)) eqn:Ec; cbn [negb fst snd];
        [|intros H; discriminate H].
      intros _. split; [reflexivity|]. exists p, w2. cbn [fst snd].
      split; [reflexivity|]. split; [exact Ep|]. rewrite Es. cbn [fst snd].
      split; [intros err H; discriminate H|]. split; reflexivity.
    + destruct (IsNotExist err) eqn:En; [cbn [fst]; intros H; discriminate H|].
      destruct (Contains cmd.validNames (Base meta)) eqn:Ec; cbn [negb fst snd];
        [|intros H; discriminate H].
      intros _. split; [reflexivity|]. exists p, w2. cbn [fst snd].
      split; [reflexivity|]. split; [exact Ep|]. rewrite Es. cbn [fst snd].
      split; [intros err' [= <-]; exact En|]. split; reflexivity.
  - split; [|destruct (mode =? ReadOnlyMode)%string; cbn [fst]; intros H; discriminate H].
    intros _. destruct (mode =? ReadOnlyMode)%string; reflexivity.
Qed.

(** X17: the checks of the export of images pass exactly when the server
    is in normal mode and the project is found, imported or not; they log
    nothing then. *)
Theorem X17_exportImage_checks (id : string) (w : World) :
  let mode := fst (ActiveSystemMode w) in
  let w1 := snd (ActiveSystemMode w) in
  (fst (exportImage_checks id w) = None <->
   mode = NormalMode /\ exists p, fst (SearchProjectID id true w1) = inl p) /\
  (fst (exportImage_checks id w) = None ->
   snd (exportImage_checks id w) = snd (SearchProjectID id true w1)).
Proof.
  cbv zeta. unfold cmd.exportImage_checks, service.Check. cbn [service.range].
  rewrite !(CheckAPIServer_outcome World ActiveSystemMode NormalMode ReadOnlyMode
              ErrReadOnly). cbv zeta.
  destruct (ActiveSystemMode w) as [mode w1]. cbn [fst snd].
  destruct (String.eqb_spec mode NormalMode) as [->|Hm].
  - unfold service.CheckPID. cbn [String.eqb Ascii.eqb Bool.eqb].
    destruct (SearchProjectID id true w1) as [[p|err] w2]; cbn [fst snd].
    + repeat split. exists p; reflexivity.
    + repeat split; try discriminate. intros (_ & p & H); discriminate H.
  - destruct (mode =? ReadOnlyMode)%string; cbn [fst snd];
      repeat split; try discriminate; intros (H & _); contradiction.
Qed.

Variable ProjectImage : Type.
Variable img_Name img_Filename img_State img_URL : ProjectImage -> string.
Variable verbose : bool.
Variable download : string.
Variable csv_Write : list string -> World -> option errors.error * World.
Variable csv_Flush : World -> World.
Variable GetFile : string -> string -> World -> option errors.error * World.
Variable filepath_Join : string -> string -> string.
Variable asNetworkError : errors.error -> option Z.
Variable Sprintf_d : Z -> string.

Local Notation "'writeRows'" :=
  (cmd.writeRows World log_Println ProjectImage img_Name img_Filename img_State img_URL
     verbose csv_Write).
Local Notation "'writeCSV'" :=
  (cmd.writeCSV World log_Println ProjectImage img_Name img_Filename img_State img_URL
     verbose csv_Write csv_Flush).
Local Notation "'downloadImages'" :=
  (cmd.downloadImages World log_Printf ProjectImage img_Name img_State img_URL download
     GetFile filepath_Join asNetworkError Sprintf_d).

Local Notation "'row'" := (rowOf ProjectImage img_Name img_Filename img_State img_URL).
Local Notation "'shown'" :=
  (announced World log_Println ProjectImage img_Name img_Filename img_State img_URL verbose).
Local Notation "'allWritten'" :=
  (written World log_Println ProjectImage img_Name img_Filename img_State img_URL verbose
     csv_Write).
Local Notation "'fetchOf'" :=
  (fetch World ProjectImage img_Name img_URL download GetFile filepath_Join).
Local Notation "'allFetched'" :=
  (fetched World log_Printf ProjectImage img_Name img_State img_URL download GetFile
     filepath_Join asNetworkError Sprintf_d).

Lemma writeRows_app pre post : forall w,
  writeRows (pre ++ post) w =
  match writeRows pre w with
  | (Some err, w1) => (Some err, w1)
  | (None, w1) => writeRows post w1
  end.
Proof.
  induction pre as [|img pre IH]; intros w; cbn [app cmd.writeRows].
  - reflexivity.
  - destruct (csv_Write _ _) as [[err|] w1]; [reflexivity|apply IH].
Qed.

Lemma writeRows_written : forall imgs w w',
  allWritten imgs w w' -> writeRows imgs w = (None, w').
Proof.
  intros imgs0 w0 w0' H. induction H as [w|img imgs w w1 w2 Hw _ IH]; cbn [cmd.writeRows].
  - reflexivity.
  - unfold announced, rowOf in Hw. rewrite Hw. exact IH.
Qed.

Lemma writeRows_cases imgs : forall w,
  (exists w', allWritten imgs w w') \/
  (exists pre img post w1 err w2,
     imgs = pre ++ img :: post /\ allWritten pre w w1 /\
     csv_Write (row img) (shown img w1) = (Some err, w2)).
Proof.
  induction imgs as [|img imgs IH]; intros w.
  - left. exists w. constructor.
  - destruct (csv_Write (row img) (shown img w)) as [[err|] w1] eqn:E.
    + right. exists [], img, imgs, w, err, w1.
      split; [reflexivity|]. split; [constructor|exact E].
    + destruct (IH w1) as [(w' & H)|(pre & i & post & w2 & err & w3 & -> & H & Hw)].
      * left. exists w'. econstructor; eassumption.
      * right. exists (img :: pre), i, post, w2, err, w3.
        split; [reflexivity|]. split; [econstructor; eassumption|exact Hw].
Qed.

Lemma writeRows_fails pre img post w w1 err w2 :
  allWritten pre w w1 ->
  csv_Write (row img) (shown img w1) = (Some err, w2) ->
  writeRows (pre ++ img :: post) w = (Some err, w2).
Proof.
  intros H Hw. rewrite writeRows_app, (writeRows_written _ _ _ H).
  cbn [cmd.writeRows]. unfold announced, rowOf in Hw. rewrite Hw. reflexivity.
Qed.

(** X18: what [writeCSV] does, by the writes.  When [Write] returns no
    error for any row, [writeCSV] returns the number of images and no error,
    and the last thing it does is to flush the writer.  When the row of an
    image is the first for which [Write] returns an error, [writeCSV]
    returns 0 and that error, whatever the number of rows written before,
    and stops there: the world is the one the failed [Write] left, so the
    rows of the images that follow are neither logged nor written, and the
    writer is not flushed.  One of the two is always the case. *)
Theorem X18_writeCSV (imgs : list ProjectImage) (w : World) :
  (forall w', allWritten imgs w w' ->
     writeCSV imgs w = ((Z.of_nat (List.length imgs), None), csv_Flush w')) /\
  (forall pre img post w1 err w2,
     imgs = pre ++ img :: post ->
     allWritten pre w w1 ->
     csv_Write (row img) (shown img w1) = (Some err, w2) ->
     writeCSV imgs w = ((0, Some err), w2)) /\
  ((exists w', allWritten imgs w w') \/
   (exists pre img post w1 err w2,
     imgs = pre ++ img :: post /\ allWritten pre w w1 /\
     csv_Write (row img) (shown img w1) = (Some err, w2))).
Proof.
  split; [|split].
  - intros w' H. unfold cmd.writeCSV. rewrite (writeRows_written _ _ _ H). reflexivity.
  - intros pre img post w1 err w2 -> H Hw. unfold cmd.writeCSV.
    rewrite (writeRows_fails pre img post w w1 err w2 H Hw). reflexivity.
  - apply writeRows_cases.
Qed.

Lemma downloadImages_app pre post : forall w,
  downloadImages (pre ++ post) w =
  match downloadImages pre w with
  | (Some err, w1) => (Some err, w1)
  | (None, w1) => downloadImages post w1
  end.
Proof.
  induction pre as [|img pre IH]; intros w; cbn [app cmd.downloadImages].
  - reflexivity.
  - destruct (negb _); [apply IH|].
    destruct (GetFile _ _ w) as [[err|] w1]; [|apply IH].
    destruct (asNetworkError err); [apply IH|reflexivity].
Qed.

Lemma downloadImages_fetched : forall imgs w w',
  allFetched imgs w w' -> downloadImages imgs w = (None, w').
Proof.
  intros imgs0 w0 w0' H.
  induction H as [w|img imgs w w' Hs _ IH|img imgs w w1 w' Hs Hf _ IH
                 |img imgs w err code w1 w' Hs Hf Hn _ IH]; cbn [cmd.downloadImages].
  - reflexivity.
  - apply String.eqb_neq in Hs. rewrite Hs. exact IH.
  - rewrite Hs. cbn [String.eqb Ascii.eqb Bool.eqb negb].
    unfold fetch in Hf. rewrite Hf. exact IH.
  - rewrite Hs. cbn [String.eqb Ascii.eqb Bool.eqb negb].
    unfold fetch in Hf. rewrite Hf, Hn. exact IH.
Qed.

Lemma fetched_next img imgs w w1 :
  (forall l w', allFetched l w1 w' -> allFetched (img :: l) w w') ->
  ((exists w', allFetched imgs w1 w') \/
   (exists pre i post w2 err w3,
      imgs = pre ++ i :: post /\ allFetched pre w1 w2 /\
      img_State i = "Ready" /\ fetchOf i w2 = (Some err, w3) /\
      asNetworkError err = None)) ->
  ((exists w', allFetched (img :: imgs) w w') \/
   (exists pre i post w2 err w3,
      img :: imgs = pre ++ i :: post /\ allFetched pre w w2 /\
      img_State i = "Ready" /\ fetchOf i w2 = (Some err, w3) /\
      asNetworkError err = None)).
Proof.
  intros Hglue [(w' & H)|(pre & i & post & w2 & err & w3 & -> & H & Hrest)].
  - left. exists w'. apply Hglue. exact H.
  - right. exists (img :: pre), i, post, w2, err, w3.
    split; [reflexivity|]. split; [apply Hglue; exact H|exact Hrest].
Qed.

Lemma downloadImages_cases imgs : forall w,
  (exists w', allFetched imgs w w') \/
  (exists pre img post w1 err w2,
     imgs = pre ++ img :: post /\ allFetched pre w w1 /\
     img_State img = "Ready" /\ fetchOf img w1 = (Some err, w2) /\
     asNetworkError err = None).
Proof.
  induction imgs as [|img imgs IH]; intros w.
  - left. exists w. constructor.
  - destruct (String.eqb_spec (img_State img) "Ready") as [Hs|Hs].
    + destruct (fetchOf img w) as [[err|] w1] eqn:Hf.
      * destruct (asNetworkError err) as [code|] eqn:Hn.
        -- eapply fetched_next; [|apply IH].
           intros l w' Hl. eapply fetched_net; eassumption.
        -- right. exists [], img, imgs, w, err, w1.
           split; [reflexivity|]. split; [constructor|]. repeat split; assumption.
      * eapply fetched_next; [|apply IH].
        intros l w' Hl. eapply fetched_ok; eassumption.
    + apply (fetched_next img imgs w w); [|apply IH].
      intros l w' Hl. apply fetched_skip; assumption.
Qed.

Lemma downloadImages_stops pre img post w w1 err w2 :
  allFetched pre w w1 ->
  img_State img = "Ready" ->
  fetchOf img w1 = (Some err, w2) ->
  asNetworkError err = None ->
  downloadImages (pre ++ img :: post) w = (Some err, w2).
Proof.
  intros H Hs Hf Hn. rewrite downloadImages_app, (downloadImages_fetched _ _ _ H).
  cbn [cmd.downloadImages]. rewrite Hs. cbn [String.eqb Ascii.eqb Bool.eqb negb].
  unfold fetch in Hf. rewrite Hf, Hn. reflexivity.
Qed.

(** X19: what [downloadImages] does, by the fetches.  It goes through the
    images in order: an image that is not [Ready] is left alone, an image
    that is [Ready] is fetched once, and after a fetch that fails with a
    network error the URL and the code are logged and the download goes on
    with the next image.  When no fetch fails with an error of another kind,
    [downloadImages] returns no error, in the world the last image left.
    At the first fetch that fails with an error of another kind it returns
    that error and stops there: the images that follow are not fetched.  One
    of the two is always the case; so the error returned is never a network
    error, and the images that are not [Ready] may as well not be in the
    list. *)
Theorem X19_downloadImages (imgs : list ProjectImage) (w : World) :
  (forall w', allFetched imgs w w' -> downloadImages imgs w = (None, w')) /\
  (forall pre img post w1 err w2,
     imgs = pre ++ img :: post ->
     allFetched pre w w1 ->
     img_State img = "Ready" ->
     fetchOf img w1 = (Some err, w2) ->
     asNetworkError err = None ->
     downloadImages imgs w = (Some err, w2)) /\
  ((exists w', allFetched imgs w w') \/
   (exists pre img post w1 err w2,
     imgs = pre ++ img :: post /\ allFetched pre w w1 /\
     img_State img = "Ready" /\ fetchOf img w1 = (Some err, w2) /\
     asNetworkError err = None)) /\
  (forall err, fst (downloadImages imgs w) = Some err -> asNetworkError err = None) /\
  downloadImages imgs w =
  downloadImages (filter (fun img => (img_State img =? "Ready")%string) imgs) w.
Proof.
  split; [|split; [|split; [|split]]].
  - apply downloadImages_fetched.
  - intros pre img post w1 err w2 -> H Hs Hf Hn.
    apply (downloadImages_stops pre img post w w1 err w2 H Hs Hf Hn).
  - apply downloadImages_cases.
  - intros err.
    destruct (downloadImages_cases imgs w)
      as [(w' & H)|(pre & i & post & w1 & e & w2 & -> & H & Hs & Hf & Hn)].
    + rewrite (downloadImages_fetched _ _ _ H). discriminate.
    + rewrite (downloadImages_stops pre i post w w1 e w2 H Hs Hf Hn).
      cbn [fst]. intros [= <-]. exact Hn.
  - revert w. induction imgs as [|img imgs IH]; intros w; cbn [cmd.downloadImages filter].
    + reflexivity.
    + destruct (img_State img =? "Ready")%string eqn:E; cbn [negb cmd.downloadImages].
      * rewrite E. cbn [negb].
        destruct (GetFile _ _ w) as [[err|] w1]; [|apply IH].
        destruct (asNetworkError err); [apply IH|reflexivity].
      * apply IH.
Qed.

End CommandFacts.

(** On the desk, with [verbose] set: the second of three rows cannot be
    written, and two rows that can. *)
Lemma X18_writeCSV_witness :
  cmd.writeCSV Desk deskPrintln Shot shotName shotFilename shotState shotURL true
    deskWrite deskFlush threeRows emptyDesk =
  ((0, Some shortWrite),
   mkDesk [["a"; "a.jpg"; "Ready"; "ua"]] 0 []
          [("%v", [""; "b.jpg"; "Pending"; "ub"]); ("%v", ["a"; "a.jpg"; "Ready"; "ua"])]) /\
  cmd.writeCSV Desk deskPrintln Shot shotName shotFilename shotState shotURL true
    deskWrite deskFlush
    [mkShot "a" "a.jpg" "Ready" "ua"; mkShot "c" "c.jpg" "Ready" "uc"] emptyDesk =
  ((2, None),
   mkDesk [["c"; "c.jpg"; "Ready"; "uc"]; ["a"; "a.jpg"; "Ready"; "ua"]] 1 []
          [("%v", ["c"; "c.jpg"; "Ready"; "uc"]); ("%v", ["a"; "a.jpg"; "Ready"; "ua"])]).
Proof.
  split.
  - apply (proj1 (proj2 (X18_writeCSV Desk deskPrintln Shot shotName shotFilename
                           shotState shotURL true deskWrite deskFlush threeRows emptyDesk))
             [mkShot "a" "a.jpg" "Ready" "ua"] (mkShot "" "b.jpg" "Pending" "ub")
             [mkShot "c" "c.jpg" "Ready" "uc"]
             (mkDesk [["a"; "a.jpg"; "Ready"; "ua"]] 0 []
                     [("%v", ["a"; "a.jpg"; "Ready"; "ua"])])
             shortWrite _ eq_refl).
    + eapply written_cons; [reflexivity|apply written_nil].
    + reflexivity.
  - apply (proj1 (X18_writeCSV Desk deskPrintln Shot shotName shotFilename shotState
                    shotURL true deskWrite deskFlush
                    [mkShot "a" "a.jpg" "Ready" "ua"; mkShot "c" "c.jpg" "Ready" "uc"]
                    emptyDesk)
             (mkDesk [["c"; "c.jpg"; "Ready"; "uc"]; ["a"; "a.jpg"; "Ready"; "ua"]] 0 []
                     [("%v", ["c"; "c.jpg"; "Ready"; "uc"]);
                      ("%v", ["a"; "a.jpg"; "Ready"; "ua"])])).
    eapply written_cons; [reflexivity|].
    eapply written_cons; [reflexivity|apply written_nil].
Defined.

(** On the desk: the first image is answered with the status 404, the
    second is not [Ready], the third is fetched, the fourth does not fit on
    the disk, and the fifth is not fetched any more. *)
Lemma X19_downloadImages_witness :
  cmd.downloadImages Desk deskPrintf Shot shotName shotState shotURL "out" deskGetFile
    slashJoin deskNetworkError (fun _ => "404") fiveShots emptyDesk =
  (Some diskFull,
   mkDesk [] 0 [("out/huge", "ud"); ("out/c", "uc"); ("out/a", "gone")]
          [("[Error] %s failed with status code: %d\n", ["gone"; "404"])]).
Proof.
  apply (proj1 (proj2 (X19_downloadImages Desk deskPrintf Shot shotName shotState shotURL
                         "out" deskGetFile slashJoin deskNetworkError (fun _ => "404")
                         fiveShots emptyDesk))
           [mkShot "a" "a.jpg" "Ready" "gone"; mkShot "b" "b.jpg" "Pending" "ub";
            mkShot "c" "c.jpg" "Ready" "uc"]
           (mkShot "huge" "d.jpg" "Ready" "ud") [mkShot "e" "e.jpg" "Ready" "ue"]
           (mkDesk [] 0 [("out/c", "uc"); ("out/a", "gone")]
                   [("[Error] %s failed with status code: %d\n", ["gone"; "404"])])
           diskFull _ eq_refl).
  - eapply fetched_net; [reflexivity|reflexivity|reflexivity|].
    apply fetched_skip; [cbn; discriminate|].
    eapply fetched_ok; [reflexivity|reflexivity|apply fetched_nil].
  - reflexivity.
  - reflexivity.
  - reflexivity.
Defined.

(** ** The checks and the commands on a host *)

Example importMeta_checks_pass :
  cmd.importMeta_checks Host hostPrintf hostMode "Normal" "ReadOnly"
    (errors.ServerError "server: read only") hostSearch bool hostStat hostIsNotExist
    (fun s => s) (fun l s => mem s l) (errors.FileError "file: invalid meta filename")
    "p2" "pose.txt" office = (None, office).
Proof. reflexivity. Qed.

Example importMeta_checks_imported_project :
  fst (cmd.importMeta_checks Host hostPrintf hostMode "Normal" "ReadOnly"
         (errors.ServerError "server: read only") hostSearch bool hostStat hostIsNotExist
         (fun s => s) (fun l s => mem s l) (errors.FileError "file: invalid meta filename")
         "p1" "pose.txt" office) = Some errors.ErrProjNotFound.
Proof. reflexivity. Qed.

Example importMeta_checks_read_only :
  cmd.importMeta_checks Host hostPrintf hostMode "Normal" "ReadOnly"
    (errors.ServerError "server: read only") hostSearch bool hostStat hostIsNotExist
    (fun s => s) (fun l s => mem s l) (errors.FileError "file: invalid meta filename")
    "p2" "pose.txt" readOnlyOffice =
  (Some (errors.ServerError "server: read only"),
   hostPrintf "Nothing could be uploaded at the moment!\n" []
     (hostPrintf "API server is in %q mode.\n" ["ReadOnly"] readOnlyOffice)).
Proof. reflexivity. Qed.

Example GetMetafilePaths_of_a_directory :
  service.GetMetafilePaths Host bool hostStat (fun d => d)
    (errors.FileError "file: not a directory") slashJoin
    ["camera.txt"; "pose.txt"; "group.txt"] hostIsFile "meta" office =
  ((["meta/camera.txt"; "meta/group.txt"], None), office).
Proof. reflexivity. Qed.

Example GetMetafilePaths_of_a_file :
  service.GetMetafilePaths Host bool hostStat (fun d => d)
    (errors.FileError "file: not a directory") slashJoin
    ["camera.txt"; "pose.txt"; "group.txt"] hostIsFile "pose.txt" office =
  (([], Some (errors.FileError "file: not a directory")), office).
Proof. reflexivity. Qed.

Example CheckDirOrZip_on_the_disk :
  let check := service.CheckDirOrZip Host bool hostStat (fun d => d)
                 (errors.FileError "file: not a directory")
                 (errors.FileError "file: not a zip")
                 (errors.FileError "file: not a directory or zip") hostIsZip in
  check "meta" hostPrintf office = (None, office) /\
  check "model.zip" hostPrintf office = (None, office) /\
  check "pose.txt" hostPrintf office =
    (Some (errors.FileError "file: not a directory or zip"), office) /\
  check "nowhere" hostPrintf office =
    (Some (errors.FileError "file: not a directory or zip"), office).
Proof. cbv zeta. repeat split. Qed.

Example bucketCmd_lists_no_meta :
  fst (cmd.bucketCmd Host hostPrintf hostPrintln hostMode (fun _ => "2") everyCloud
         (errors.Foreign "bucket: invalid") hostActive twoBuckets firstBucket
         (fun l => rev l) (fun s => s) office) =
  cmd.Rendered
    (tablewriter.mkTable ["Kind"; "Cloud"; "Buckets"; "Suggested"; "Count"]
       [["image"; "s3"; "b1, b2"; "b1"; "2"];
        ["image"; "oss"; "b1, b2"; "b1"; "2"];
        ["model"; "s3"; "b1, b2"; "b1"; "2"]]).
Proof. reflexivity. Qed.
